(** * Redis Top Keys Analyzer: the scan loop, the per-type buckets and
      the Top 10 report of [redis-top-keys-analyzer.py].

    The script talks to a Redis server through three calls, [r.scan],
    [r.memory_usage] and [r.type].  The server is modelled by what it
    answers, in call order: a script of [scan] replies, each listing keys
    together with the answers the two per-key queries give for that key.
    Python integers are [Z].  Python strings are [string]; [String.compare]
    orders them as Python orders [str]: the first character that differs
    decides, and a proper prefix comes first. *)

From Stdlib Require Import ZArith String Ascii List Lia.
From stdpp Require Import base list sorting gmap strings.

Local Open Scope Z_scope.

(** ** The server's answers *)

(** A call either returns a value or raises an [Exception]. *)
Inductive reply (A : Type) : Type :=
| Returns (a : A)
| Raises.
Arguments Returns {A} a.
Arguments Raises {A}.

(** One key of a [scan] batch, with the answers of [r.memory_usage(key)]
    ([None] is Redis' nil) and of [r.type(key)]. *)
Record listed_key : Type := Listed {
  name : string;
  memory_usage : reply (option Z);
  type : reply string
}.

(** [r.scan(cursor=cursor, count=1000)] returns [(cursor, keys)]. *)
Definition scan_reply : Type := reply (Z * list listed_key).

(** ** The state of the run *)

(** What the script prints; the numbers are the ones the format strings
    receive, their rendering in MB and percent is left out. *)
Inductive line : Type :=
| Progress (scanned : Z)
| Header (key_type : string)
| Row (idx : Z) (mem : Z) (key_display : string)
| Stats (total_keys total_mem top10_mem : Z).

Record session : Type := Session {
  type_keys : gmap string (list (Z * string));
  scanned : Z;
  errors : Z;
  cursor : Z;
  stdout : list line
}.

Definition initial : session :=
  {| type_keys := ∅; scanned := 0; errors := 0; cursor := 0; stdout := [] |}.

Definition set_cursor (c : Z) (s : session) : session :=
  {| type_keys := type_keys s; scanned := scanned s; errors := errors s;
     cursor := c; stdout := stdout s |}.

Definition count_error (s : session) : session :=
  {| type_keys := type_keys s; scanned := scanned s; errors := errors s + 1;
     cursor := cursor s; stdout := stdout s |}.

Definition print (l : line) (s : session) : session :=
  {| type_keys := type_keys s; scanned := scanned s; errors := errors s;
     cursor := cursor s; stdout := stdout s ++ [l] |}.

(** [type_keys[key_type].append((mem, key))] on a [defaultdict(list)]: a
    missing bucket is created empty first. *)
Definition append (key_type : string) (x : Z * string)
    (d : gmap string (list (Z * string))) : gmap string (list (Z * string)) :=
  <[key_type := default [] (d !! key_type) ++ [x]]> d.

(** [type_keys[key_type].append((mem, key)); scanned += 1] and the progress
    message every 10000 keys. *)
Definition record_key (key_type : string) (mem : Z) (key : string)
    (s : session) : session :=
  let s' := {| type_keys := append key_type (mem, key) (type_keys s);
               scanned := scanned s + 1; errors := errors s;
               cursor := cursor s; stdout := stdout s |} in
  if scanned s' mod 10000 =? 0 then print (Progress (scanned s')) s' else s'.

(** The body of [for key in keys]: the [try] block and its [except]. *)
Definition for_body (s : session) (k : listed_key) : session :=
  match memory_usage k with
  | Raises => count_error s
  | Returns mem =>
      match type k with
      | Raises => count_error s
      | Returns key_type =>
          match mem with
          | None => s
          | Some m => if m =? 0 then s else record_key key_type m (name k) s
          end
      end
  end.

(** One turn of [while True] once [r.scan] has returned. *)
Definition scan_batch (s : session) (c : Z) (keys : list listed_key) : session :=
  foldl for_body (set_cursor c s) keys.

(** How the loop stands once the script of replies is used up. *)
Inductive outcome : Type :=
| Completed (s : session) (unread : list scan_reply)
| Uncaught (s : session)
| Starved (s : session).

(** [while True: cursor, keys = r.scan(...); for ...; if cursor == 0: break].
    Each turn takes one reply of the script.  [Completed s unread]: the loop
    left through [break], without touching [unread].  [Uncaught s]: [r.scan]
    raised, nothing catches it.  [Starved s]: the script ended while the loop
    was about to call [r.scan] again. *)
Fixpoint while_true (s : session) (replies : list scan_reply) : outcome :=
  match replies with
  | [] => Starved s
  | Raises :: _ => Uncaught s
  | Returns (c, keys) :: rest =>
      let s' := scan_batch s c keys in
      if cursor s' =? 0 then Completed s' rest else while_true s' rest
  end.

Definition scan : list scan_reply → outcome := while_true initial.

(** ** Ranking *)

(** Python's [<] on [(mem, key)] tuples: the first components that differ
    decide, [str] is compared lexicographically. *)
Definition tuple_lt (x y : Z * string) : bool :=
  if x.1 =? y.1 then String.ltb x.2 y.2 else x.1 <? y.1.

(** [x] may stand before [y] in a list sorted with [reverse=True]. *)
Definition not_below (x y : Z * string) : Prop := tuple_lt x y = false.

Global Instance not_below_dec : RelDecision not_below.
Proof. intros x y. unfold not_below. apply _. Defined.

(** [sorted(bucket, reverse=True)] *)
Definition sorted_reverse (bucket : list (Z * string)) : list (Z * string) :=
  merge_sort not_below bucket.

(** [sorted(type_keys[key_type], reverse=True)[:10]] *)
Definition sorted_keys (bucket : list (Z * string)) : list (Z * string) :=
  take 10 (sorted_reverse bucket).

(** [sum(m for m, _ in bucket)] *)
Definition sum_mem (bucket : list (Z * string)) : Z :=
  foldl (λ acc x, acc + x.1) 0 bucket.

Definition total_keys (bucket : list (Z * string)) : Z :=
  Z.of_nat (length bucket).

(** ** The per-type report *)

Definition display_order : list string :=
  ["string"; "list"; "set"; "zset"; "hash"; "stream"]%string.

(** [key if len(key) <= 80 else key[:77] + "..."]; [len] counts the
    characters of the key, here those of the [string]. *)
Definition key_display (key : string) : string :=
  if (String.length key <=? 80)%nat then key
  else (String.substring 0 77 key ++ "...")%string.

(** [for idx, (mem, key) in enumerate(sorted_keys, 1)] *)
Definition rows (top : list (Z * string)) : list line :=
  imap (λ i x, Row (Z.of_nat i + 1) x.1 (key_display x.2)) top.

(** The body of [for key_type in [...]], for a bucket that is there. *)
Definition table_of (key_type : string) (bucket : list (Z * string)) : list line :=
  let top := sorted_keys bucket in
  match top with
  | [] => []
  | _ :: _ =>
      Header key_type :: rows top
        ++ [Stats (total_keys bucket) (sum_mem bucket) (sum_mem top)]
  end.

Definition table (d : gmap string (list (Z * string))) (key_type : string)
    : list line :=
  match d !! key_type with
  | None => []
  | Some bucket => table_of key_type bucket
  end.

Definition report (d : gmap string (list (Z * string))) : list line :=
  display_order ≫= table d.

(** The types whose table the report holds, in the order of the report. *)
Definition tables (out : list line) : list string :=
  omap (λ l, match l with Header t => Some t | _ => None end) out.

(** ** What the inspection of a listed key yields *)

(** The [try] block raises: one of its two queries does. *)
Definition raises (k : listed_key) : bool :=
  match memory_usage k with
  | Raises => true
  | Returns _ => match type k with Raises => true | Returns _ => false end
  end.

(** The type and the [(mem, key)] pair the [try] block stores for [k], if it
    stores one. *)
Definition observation (k : listed_key) : option (string * (Z * string)) :=
  match memory_usage k, type k with
  | Returns (Some m), Returns t =>
      if m =? 0 then None else Some (t, (m, name k))
  | _, _ => None
  end.

(** The pairs of type [key_type] among the observations of [keys], in the
    order of [keys]. *)
Definition observed (key_type : string) (keys : list listed_key)
    : list (Z * string) :=
  omap (λ k, match observation k with
             | Some (t, x) => if decide (t = key_type) then Some x else None
             | None => None
             end) keys.

(** [type_keys[key_type]], empty when the type was never stored. *)
Definition bucket (s : session) (key_type : string) : list (Z * string) :=
  default [] (type_keys s !! key_type).

(** [sum(len(keys) for keys in type_keys.values())] *)
Definition bucket_sizes (d : gmap string (list (Z * string))) : Z :=
  map_fold (λ _ b n, total_keys b + n) 0 d.

(** The keys of all batches of a script whose calls all return. *)
Definition listed (batches : list (Z * list listed_key)) : list listed_key :=
  batches ≫= snd.

(** The session after the batches have gone through the loop body. *)
Definition scan_batches (s : session) (batches : list (Z * list listed_key))
    : session :=
  foldl (λ s b, scan_batch s b.1 b.2) s batches.

(** The memory query of [k] answers nil or zero. *)
Definition reports_nothing (k : listed_key) : Prop :=
  memory_usage k = Returns None ∨ memory_usage k = Returns (Some 0).

(** ** The bounded Top-K aggregator of the design (section 4.3)

    Written after the specification, not after the script: a bucket keeps at
    most [K] pairs sorted descending and two running totals; [observe] adds
    to the totals, inserts the pair at its place and, if the length then
    exceeds [K], drops the smallest pair, which stands last. *)
Module Aggregator.

Record TypeBucket : Type := {
  topK : list (Z * string);
  totalCount : Z;
  totalBytes : Z
}.

Definition empty : TypeBucket :=
  {| topK := []; totalCount := 0; totalBytes := 0 |}.

Fixpoint insert (x : Z * string) (l : list (Z * string)) : list (Z * string) :=
  match l with
  | [] => [x]
  | y :: l' => if tuple_lt y x then x :: l else y :: insert x l'
  end.

Definition observe (K : nat) (b : TypeBucket) (x : Z * string) : TypeBucket :=
  let t := insert x (topK b) in
  {| topK := if (K <? length t)%nat then removelast t else t;
     totalCount := totalCount b + 1;
     totalBytes := totalBytes b + x.1 |}.

Definition observe_all (K : nat) (l : list (Z * string)) : TypeBucket :=
  foldl (observe K) empty l.

End Aggregator.

(** What the script keeps for the same observations *)
Definition accumulate (l : list (Z * string)) : list (Z * string) :=
  foldl (λ acc x, acc ++ [x]) [] l.

(** ** The states the scan goes through *)

Definition session_of (o : outcome) : session :=
  match o with
  | Completed s _ => s
  | Uncaught s => s
  | Starved s => s
  end.

(** The session between two iterations of the loops: at the start, after
    [r.scan] has returned a cursor, after the body of [for] has run for one
    more key. *)
Inductive reachable : session → Prop :=
| reachable_initial : reachable initial
| reachable_scan (s : session) (c : Z) :
    reachable s → reachable (set_cursor c s)
| reachable_key (s : session) (k : listed_key) :
    reachable s → reachable (for_body s k).

(** The types of the observations of [keys]. *)
Definition observed_types (keys : list listed_key) : list string :=
  (omap observation keys).*1.

(** ** Sample keys *)

Module Sample.
Local Open Scope string_scope.

Definition k_a : listed_key := Listed "a" (Returns (Some 500)) (Returns "list").
Definition k_b : listed_key := Listed "b" (Returns (Some 300)) (Returns "list").
Definition k_c : listed_key := Listed "c" (Returns (Some 500)) (Returns "list").
Definition k_s : listed_key := Listed "s" (Returns (Some 72)) (Returns "string").
(** expired between [scan] and the queries *)
Definition gone : listed_key := Listed "gone" (Returns None) (Returns "none").
Definition zero : listed_key := Listed "zero" (Returns (Some 0)) (Returns "string").
(** the memory query raises *)
Definition broken : listed_key := Listed "broken" Raises (Returns "string").
(** the memory query answers nil, then the type query raises *)
Definition half : listed_key := Listed "half" (Returns None) Raises.
(** a module type, outside the six built-in ones *)
Definition doc : listed_key := Listed "doc" (Returns (Some 64)) (Returns "ReJSON-RL").
(** a bucket with more than ten pairs, two of them tied on memory *)
Definition twelve : list (Z * string) :=
  [(40, "k01"); (10, "k02"); (90, "k03"); (70, "k04"); (20, "k05");
   (70, "k06"); (30, "k07"); (120, "k08"); (50, "k09"); (60, "k10");
   (80, "k11"); (110, "k12")].
End Sample.

(** ** Command line *)

(** [":" in arg] *)
Fixpoint has_colon (arg : string) : bool :=
  match arg with
  | EmptyString => false
  | String c rest => Ascii.eqb c ":" || has_colon rest
  end.

(** [arg.split(":", 1)]: the text cut at its first colon, or the text alone
    when it holds none. *)
Fixpoint split_colon_1 (arg : string) : list string :=
  match arg with
  | EmptyString => [EmptyString]
  | String c rest =>
      if Ascii.eqb c ":" then [EmptyString; rest]
      else match split_colon_1 rest with
           | h :: parts => String c h :: parts
           | [] => [String c EmptyString]
           end
  end.

Section CommandLine.

(** Python's [int] on a [str]: the number read, or [ValueError]. *)
Variable int : string → reply Z.

(** [parse_host_port()], [args] being [sys.argv[1:]].  Unpacking
    [h, p = ...] raises when the split does not give two parts. *)
Definition parse_host_port (args : list string) : reply (string * Z) :=
  let host := "localhost"%string in
  let port := 6379 in
  match args with
  | [] => Returns (host, port)
  | [arg] =>
      if has_colon arg then
        match split_colon_1 arg with
        | [h; p] =>
            match int p with
            | Returns n => Returns (h, n)
            | Raises => Raises
            end
        | _ => Raises
        end
      else Returns (arg, port)
  | arg0 :: arg1 :: _ =>
      match int arg1 with
      | Returns n => Returns (arg0, n)
      | Raises => Raises
      end
  end.

End CommandLine.

(** ** The summary over all types *)

(** The lines of the closing table: one per type, then the grand total; the
    shares in percent are left to the rendering. *)
Inductive summary_line : Type :=
| SummaryRow (key_type : string) (count mem : Z)
| GrandTotal (scanned total_all_mem : Z).

(** [sum(sum(m for m, _ in keys) for keys in type_keys.values())] *)
Definition total_all_mem (d : gmap string (list (Z * string))) : Z :=
  map_fold (λ _ keys acc, acc + sum_mem keys) 0 d.

(** [sorted(type_keys.keys())] *)
Definition sorted_types (d : gmap string (list (Z * string))) : list string :=
  merge_sort String.le (map_to_list d).*1.

(** The body of [for key_type in sorted(type_keys.keys())]. *)
Definition summary_row (d : gmap string (list (Z * string)))
    (key_type : string) : summary_line :=
  SummaryRow key_type (total_keys (default [] (d !! key_type)))
             (sum_mem (default [] (d !! key_type))).

Definition summary (s : session) : list summary_line :=
  (summary_row (type_keys s) <$> sorted_types (type_keys s))
    ++ [GrandTotal (scanned s) (total_all_mem (type_keys s))].

(** The types, the key counts and the memory of the rows of a summary. *)
Definition summary_types (out : list summary_line) : list string :=
  omap (λ l, match l with SummaryRow t _ _ => Some t | GrandTotal _ _ => None end) out.

Definition summary_counts (out : list summary_line) : Z :=
  foldr (λ l acc, match l with SummaryRow _ c _ => c + acc | GrandTotal _ _ => acc end)
        0 out.

Definition summary_mems (out : list summary_line) : Z :=
  foldr (λ l acc, match l with SummaryRow _ _ m => m + acc | GrandTotal _ _ => acc end)
        0 out.

(** ** The whole run *)

(** What reaches standard output, in order: the connection message with the
    two fixed notices that follow it, the progress lines of the scan, the
    closing line of the scan, the per-type tables, the summary.  Rules and
    column headings are fixed text and go with the line they frame. *)
Inductive output : Type :=
| Connecting (host : string) (port : Z)
| Scanning (l : line)
| Finished (scanned errors : Z)
| Ranked (l : line)
| Overall (l : summary_line).

(** How the process stands: ended normally, ended by an uncaught exception,
    or still in the scan loop when the script of replies ends. *)
Inductive status : Type :=
| Exited
| Traceback
| InLoop.

Section Main.

Variable int : string → reply Z.

(** The script from top to bottom: the command line, the scan, the report. *)
Definition main (args : list string) (replies : list scan_reply)
    : list output * status :=
  match parse_host_port int args with
  | Raises => ([], Traceback)
  | Returns (host, port) =>
      match scan replies with
      | Completed s _ =>
          (Connecting host port :: (Scanning <$> stdout s)
             ++ Finished (scanned s) (errors s)
             :: (Ranked <$> report (type_keys s)) ++ (Overall <$> summary s),
           Exited)
      | Uncaught s => (Connecting host port :: (Scanning <$> stdout s), Traceback)
      | Starved s => (Connecting host port :: (Scanning <$> stdout s), InLoop)
      end
  end.

End Main.


(** The progress lines for 10000, 20000, ... up to [n] times 10000. *)
Definition progress_lines (n : nat) : list line :=
  (λ i, Progress (10000 * (Z.of_nat i + 1))) <$> seq 0 n.

(** A listed key that neither raises nor is stored. *)
Definition skipped (k : listed_key) : bool :=
  negb (raises k) && match observation k with Some _ => false | None => true end.

(** ** A reader of digits, for examples of [int] *)

Definition digit (c : ascii) : option Z :=
  let n := Z.of_N (N_of_ascii c) in
  if (48 <=? n) && (n <=? 57) then Some (n - 48) else None.

Fixpoint digits (acc : Z) (text : string) : reply Z :=
  match text with
  | EmptyString => Returns acc
  | String c rest =>
      match digit c with
      | Some d => digits (10 * acc + d) rest
      | None => Raises
      end
  end.

(** Agrees with [int] on plain runs of digits and raises on anything else. *)
Definition decimal (text : string) : reply Z :=
  match text with
  | EmptyString => Raises
  | String _ _ => digits 0 text
  end.

(** * Properties *)

(** ** The order of the ranking *)

Example sorted_keys_ties :
  sorted_keys [(500, "a"); (300, "b"); (500, "c")]%string
  = [(500, "c"); (500, "a"); (300, "b")]%string.
Proof. vm_compute. reflexivity. Qed.

Lemma compare_refl (a : string) : String.compare a a = Eq.
Proof.
  induction a as [|c a IH]; simpl; [done|].
  unfold Ascii.compare. by rewrite N.compare_refl.
Qed.

Lemma compare_eq (a b : string) : String.compare a b = Eq ↔ a = b.
Proof.
  split; [apply String.compare_eq_iff|intros ->; apply compare_refl].
Qed.

Lemma compare_gt_lt (a b : string) :
  String.compare a b = Gt ↔ String.compare b a = Lt.
Proof. rewrite (String.compare_antisym b a). by destruct (String.compare a b). Qed.

Lemma compare_lt_trans (a b c : string) :
  String.compare a b = Lt → String.compare b c = Lt → String.compare a c = Lt.
Proof.
  revert b c. induction a as [|x a IH]; intros [|y b] [|z c]; simpl; try done.
  unfold Ascii.compare.
  destruct (N.compare_spec (N_of_ascii x) (N_of_ascii y)) as [Hxy|Hxy|Hxy];
    destruct (N.compare_spec (N_of_ascii y) (N_of_ascii z)) as [Hyz|Hyz|Hyz];
    try done; intros Hab Hbc.
  - rewrite Hxy, Hyz, N.compare_refl. eauto.
  - rewrite Hxy. by apply N.compare_lt_iff in Hyz as ->.
  - rewrite <-Hyz. by apply N.compare_lt_iff in Hxy as ->.
  - assert (N_of_ascii x < N_of_ascii z)%N as Hxz by lia.
    by apply N.compare_lt_iff in Hxz as ->.
Qed.

Lemma tuple_lt_spec (x y : Z * string) :
  tuple_lt x y = true ↔ x.1 < y.1 ∨ (x.1 = y.1 ∧ String.compare x.2 y.2 = Lt).
Proof.
  unfold tuple_lt, String.ltb. destruct (Z.eqb_spec x.1 y.1) as [E|E].
  - destruct (String.compare x.2 y.2); split; intros H; try done;
      try (right; done); destruct H as [H|[_ H]]; try done; lia.
  - rewrite Z.ltb_lt. split; [by left|]. intros [H|[H _]]; done.
Qed.

Lemma not_below_spec (x y : Z * string) :
  not_below x y ↔ y.1 < x.1 ∨ (x.1 = y.1 ∧ String.compare x.2 y.2 ≠ Lt).
Proof.
  unfold not_below. rewrite <-not_true_iff_false, tuple_lt_spec.
  destruct (String.compare x.2 y.2); split; intros H;
    try (destruct (decide (x.1 = y.1)); [right; split; [done|done]|left; lia]);
    try (intros [?|[? ?]]; destruct H as [?|[? ?]]; (done || lia)).
  - destruct (decide (y.1 < x.1)); [by left|]. exfalso. apply H.
    destruct (decide (x.1 = y.1)); [by right|left; lia].
Qed.

Global Instance not_below_total : Total not_below.
Proof.
  intros x y. rewrite !not_below_spec.
  destruct (Z.lt_trichotomy x.1 y.1) as [?|[E|?]]; [by right; left| |by left; left].
  destruct (String.compare x.2 y.2) eqn:C.
  - by left; right.
  - right; right. split; [done|]. intros C'. apply compare_gt_lt in C'. congruence.
  - by left; right.
Qed.

Global Instance not_below_antisymm : AntiSymm (=) not_below.
Proof.
  intros [m1 k1] [m2 k2]. rewrite !not_below_spec. simpl.
  intros [?|[-> C1]] [?|[? C2]]; try lia. f_equal.
  destruct (String.compare k1 k2) eqn:C; [by apply compare_eq|done|].
  apply compare_gt_lt in C. done.
Qed.

Global Instance not_below_trans : Transitive not_below.
Proof.
  intros x y z. rewrite !not_below_spec.
  intros [?|[E1 C1]] [?|[E2 C2]]; [left; lia|left; lia|left; lia|].
  right. split; [congruence|]. intros C.
  destruct (String.compare x.2 y.2) eqn:Cxy; [|done|].
  - apply compare_eq in Cxy. rewrite Cxy in C. done.
  - apply compare_gt_lt in Cxy. apply C2. eauto using compare_lt_trans.
Qed.

Global Instance not_below_refl : Reflexive not_below.
Proof. intros x. destruct (total not_below x x); done. Qed.

(** ** [sorted(..., reverse=True)] *)

Lemma sorted_reverse_Sorted (l : list (Z * string)) :
  StronglySorted not_below (sorted_reverse l).
Proof. apply StronglySorted_merge_sort; apply _. Qed.

Lemma sorted_reverse_Permutation (l : list (Z * string)) : sorted_reverse l ≡ₚ l.
Proof. apply merge_sort_Permutation. Qed.

(** Whatever the algorithm, a list has one descending arrangement. *)
Lemma sorted_reverse_unique (l l' : list (Z * string)) :
  Sorted not_below l' → l' ≡ₚ l → l' = sorted_reverse l.
Proof.
  intros Hs Hp. apply (Sorted_unique not_below); [done| |].
  - apply Sorted_merge_sort, _.
  - by rewrite sorted_reverse_Permutation.
Qed.

Lemma sorted_reverse_proper (l1 l2 : list (Z * string)) :
  l1 ≡ₚ l2 → sorted_reverse l1 = sorted_reverse l2.
Proof.
  intros Hp. apply sorted_reverse_unique.
  - apply Sorted_merge_sort, _.
  - by rewrite sorted_reverse_Permutation.
Qed.

(** ** The loop body, one key at a time *)

Lemma lookup_append (t t' : string) (x : Z * string)
    (d : gmap string (list (Z * string))) :
  default [] (append t' x d !! t)
  = default [] (d !! t) ++ (if decide (t' = t) then [x] else []).
Proof.
  unfold append. destruct (decide (t' = t)) as [->|Hne].
  - by rewrite lookup_insert_eq.
  - rewrite lookup_insert_ne by done. by rewrite app_nil_r.
Qed.

Lemma record_key_fields (t : string) (m : Z) (key : string) (s : session) :
  type_keys (record_key t m key s) = append t (m, key) (type_keys s)
  ∧ scanned (record_key t m key s) = scanned s + 1
  ∧ errors (record_key t m key s) = errors s
  ∧ cursor (record_key t m key s) = cursor s.
Proof. unfold record_key. simpl. by destruct (_ =? 0). Qed.

Lemma for_body_bucket (s : session) (k : listed_key) (t : string) :
  bucket (for_body s k) t = bucket s t ++ observed t [k].
Proof.
  unfold bucket, for_body, observed, observation. simpl.
  destruct (memory_usage k) as [[m|]|], (type k) as [t'|];
    simpl; rewrite ?app_nil_r; try done.
  destruct (m =? 0); simpl; rewrite ?app_nil_r; [done|].
  destruct (record_key_fields t' m (name k) s) as [-> _].
  rewrite lookup_append. by destruct (decide (t' = t)).
Qed.

Lemma for_body_scanned (s : session) (k : listed_key) :
  scanned (for_body s k) = scanned s + Z.of_nat (length (omap observation [k])).
Proof.
  unfold for_body, observation. simpl.
  destruct (memory_usage k) as [[m|]|], (type k) as [t'|]; simpl; try lia.
  destruct (m =? 0); simpl; [lia|].
  by destruct (record_key_fields t' m (name k) s) as (_ & -> & _).
Qed.

Lemma for_body_errors (s : session) (k : listed_key) :
  errors (for_body s k) = errors s + (if raises k then 1 else 0).
Proof.
  unfold for_body, raises.
  destruct (memory_usage k) as [[m|]|], (type k) as [t'|]; simpl; try lia.
  destruct (m =? 0); simpl; [lia|].
  destruct (record_key_fields t' m (name k) s) as (_ & _ & -> & _). lia.
Qed.

Lemma for_body_cursor (s : session) (k : listed_key) :
  cursor (for_body s k) = cursor s.
Proof.
  unfold for_body.
  destruct (memory_usage k) as [[m|]|], (type k) as [t'|]; simpl; try done.
  destruct (m =? 0); simpl; [done|].
  by destruct (record_key_fields t' m (name k) s) as (_ & _ & _ & ->).
Qed.

(** ** The loop body over a whole list of keys *)

Lemma observed_app (t : string) (l1 l2 : list listed_key) :
  observed t (l1 ++ l2) = observed t l1 ++ observed t l2.
Proof. apply omap_app. Qed.

Lemma foldl_for_body_bucket (keys : list listed_key) (s : session) (t : string) :
  bucket (foldl for_body s keys) t = bucket s t ++ observed t keys.
Proof.
  revert s. induction keys as [|k keys IH]; intros s; simpl.
  - by rewrite app_nil_r.
  - rewrite IH, for_body_bucket, <-app_assoc. f_equal.
    symmetry. apply (observed_app t [k] keys).
Qed.

Lemma foldl_for_body_scanned (keys : list listed_key) (s : session) :
  scanned (foldl for_body s keys)
  = scanned s + Z.of_nat (length (omap observation keys)).
Proof.
  revert s. induction keys as [|k keys IH]; intros s; [simpl; lia|].
  change (foldl for_body s (k :: keys)) with (foldl for_body (for_body s k) keys).
  rewrite IH, for_body_scanned.
  change (k :: keys) with ([k] ++ keys). rewrite omap_app, length_app. lia.
Qed.

Lemma foldl_for_body_errors (keys : list listed_key) (s : session) :
  errors (foldl for_body s keys)
  = errors s + Z.of_nat (length (filter (λ k, raises k = true) keys)).
Proof.
  revert s. induction keys as [|k keys IH]; intros s; [simpl; lia|].
  change (foldl for_body s (k :: keys)) with (foldl for_body (for_body s k) keys).
  rewrite IH, for_body_errors, filter_cons.
  destruct (decide (raises k = true)) as [->|Hr]; simpl; [lia|].
  destruct (raises k); [done|lia].
Qed.

Lemma foldl_for_body_cursor (keys : list listed_key) (s : session) :
  cursor (foldl for_body s keys) = cursor s.
Proof.
  revert s. induction keys as [|k keys IH]; intros s; simpl; [done|].
  by rewrite IH, for_body_cursor.
Qed.

Lemma scan_batch_bucket (s : session) (c : Z) (keys : list listed_key) (t : string) :
  bucket (scan_batch s c keys) t = bucket s t ++ observed t keys.
Proof. unfold scan_batch. by rewrite foldl_for_body_bucket. Qed.

Lemma scan_batch_scanned (s : session) (c : Z) (keys : list listed_key) :
  scanned (scan_batch s c keys)
  = scanned s + Z.of_nat (length (omap observation keys)).
Proof. unfold scan_batch. by rewrite foldl_for_body_scanned. Qed.

Lemma scan_batch_errors (s : session) (c : Z) (keys : list listed_key) :
  errors (scan_batch s c keys)
  = errors s + Z.of_nat (length (filter (λ k, raises k = true) keys)).
Proof. unfold scan_batch. by rewrite foldl_for_body_errors. Qed.

Lemma scan_batches_cons (s : session) (c : Z) (keys : list listed_key)
    (batches : list (Z * list listed_key)) :
  scan_batches s ((c, keys) :: batches)
  = scan_batches (scan_batch s c keys) batches.
Proof. done. Qed.

Lemma listed_cons (c : Z) (keys : list listed_key)
    (batches : list (Z * list listed_key)) :
  listed ((c, keys) :: batches) = keys ++ listed batches.
Proof. done. Qed.

(** The batches of a script go through the loop body key by key; between
    them only the cursor is assigned. *)
Lemma scan_batches_bucket (batches : list (Z * list listed_key)) (s : session)
    (t : string) :
  bucket (scan_batches s batches) t = bucket s t ++ observed t (listed batches).
Proof.
  revert s. induction batches as [|[c keys] batches IH]; intros s.
  - simpl. by rewrite app_nil_r.
  - rewrite scan_batches_cons, listed_cons, IH, scan_batch_bucket.
    by rewrite observed_app, app_assoc.
Qed.

Lemma scan_batches_scanned (batches : list (Z * list listed_key)) (s : session) :
  scanned (scan_batches s batches)
  = scanned s + Z.of_nat (length (omap observation (listed batches))).
Proof.
  revert s. induction batches as [|[c keys] batches IH]; intros s.
  - simpl. lia.
  - rewrite scan_batches_cons, listed_cons, IH, scan_batch_scanned.
    rewrite omap_app, length_app. lia.
Qed.

Lemma scan_batches_errors (batches : list (Z * list listed_key)) (s : session) :
  errors (scan_batches s batches)
  = errors s
    + Z.of_nat (length (filter (λ k, raises k = true) (listed batches))).
Proof.
  revert s. induction batches as [|[c keys] batches IH]; intros s.
  - simpl. lia.
  - rewrite scan_batches_cons, listed_cons, IH, scan_batch_errors.
    rewrite filter_app, length_app. lia.
Qed.

Lemma scan_batches_snoc (batches : list (Z * list listed_key)) (s : session)
    (c : Z) (keys : list listed_key) :
  scan_batches s (batches ++ [(c, keys)])
  = scan_batch (scan_batches s batches) c keys.
Proof. unfold scan_batches. by rewrite foldl_snoc. Qed.

Lemma scan_batch_cursor (s : session) (c : Z) (keys : list listed_key) :
  cursor (scan_batch s c keys) = c.
Proof. unfold scan_batch. by rewrite foldl_for_body_cursor. Qed.

(** ** The loop *)

Lemma while_true_nonzero (pre : list (Z * list listed_key)) (s : session)
    (replies : list scan_reply) :
  Forall (λ b, b.1 ≠ 0) pre →
  while_true s ((Returns <$> pre) ++ replies)
  = while_true (scan_batches s pre) replies.
Proof.
  intros Hpre. revert s.
  induction Hpre as [|[c keys] pre Hc _ IH]; intros s; [done|].
  rewrite scan_batches_cons, <-IH. simpl.
  rewrite scan_batch_cursor. simpl in Hc.
  by destruct (Z.eqb_spec c 0).
Qed.

Lemma while_true_zero (s : session) (keys : list listed_key)
    (rest : list scan_reply) :
  while_true s (Returns (0, keys) :: rest) = Completed (scan_batch s 0 keys) rest.
Proof. simpl. by rewrite scan_batch_cursor. Qed.

Lemma scan_batches_reachable (batches : list (Z * list listed_key)) (s : session) :
  reachable s → reachable (scan_batches s batches).
Proof.
  revert s. induction batches as [|[c keys] batches IH]; intros s Hs; [done|].
  rewrite scan_batches_cons. apply IH. unfold scan_batch.
  assert (reachable (set_cursor c s)) as Hc by by constructor.
  revert Hc. generalize (set_cursor c s).
  induction keys as [|k keys IHk]; intros s' Hs'; [done|].
  simpl. apply IHk. by constructor.
Qed.

Lemma scan_batch_reachable (s : session) (c : Z) (keys : list listed_key) :
  reachable s → reachable (scan_batch s c keys).
Proof. apply (scan_batches_reachable [(c, keys)]). Qed.

(** However the loop ends, it ends in a reachable session. *)
Lemma while_true_reachable (replies : list scan_reply) (s : session) :
  reachable s → reachable (session_of (while_true s replies)).
Proof.
  revert s. induction replies as [|[[c keys]|] replies IH]; intros s Hs;
    simpl; [done| |done].
  pose proof (scan_batch_reachable s c keys Hs) as Hb.
  destruct (_ =? 0); [done|]. by apply IH.
Qed.

Lemma scan_reachable (replies : list scan_reply) :
  reachable (session_of (scan replies)).
Proof. apply while_true_reachable. constructor. Qed.

(** ** Counting *)

Lemma bucket_sizes_append (t : string) (x : Z * string)
    (d : gmap string (list (Z * string))) :
  bucket_sizes (append t x d) = bucket_sizes d + 1.
Proof.
  unfold append, bucket_sizes. destruct (d !! t) as [b|] eqn:E; simpl.
  - rewrite (map_fold_delete_L _ _ t b d); [|intros; lia|done].
    rewrite <-insert_delete_eq.
    rewrite map_fold_insert_L; [|intros; lia|apply lookup_delete_eq].
    unfold total_keys. rewrite length_app. simpl. lia.
  - rewrite map_fold_insert_L; [|intros; lia|done].
    unfold total_keys. simpl. lia.
Qed.

Lemma for_body_consistent (s : session) (k : listed_key) :
  scanned s = bucket_sizes (type_keys s) →
  scanned (for_body s k) = bucket_sizes (type_keys (for_body s k)).
Proof.
  intros Hs. unfold for_body.
  destruct (memory_usage k) as [[m|]|], (type k) as [t'|]; simpl; try done.
  destruct (m =? 0); [done|].
  destruct (record_key_fields t' m (name k) s) as (-> & -> & _).
  rewrite bucket_sizes_append. lia.
Qed.

Lemma reachable_consistent (s : session) :
  reachable s → scanned s = bucket_sizes (type_keys s).
Proof.
  induction 1 as [|s c _ IH|s k _ IH].
  - done.
  - done.
  - by apply for_body_consistent.
Qed.

Lemma observations_count (keys : list listed_key) :
  Forall (λ k, raises k = false →
               ∃ m, memory_usage k = Returns (Some m) ∧ 0 < m) keys →
  (length (omap observation keys)
   + length (filter (λ k, raises k = true) keys) = length keys)%nat.
Proof.
  induction 1 as [|k keys Hk _ IH]; [done|].
  rewrite filter_cons. cbn [omap list_omap].
  destruct (decide (raises k = true)) as [Hr|Hr].
  - assert (observation k = None) as ->.
    { unfold raises in Hr. unfold observation.
      destruct (memory_usage k) as [[m|]|], (type k); try done. }
    simpl. lia.
  - apply not_true_is_false in Hr. destruct (Hk Hr) as (m & Hm & Hpos).
    assert (is_Some (observation k)) as [o ->].
    { unfold raises in Hr. unfold observation. rewrite Hm in Hr |- *.
      destruct (type k); [|done]. destruct (Z.eqb_spec m 0); [lia|]. eauto. }
    simpl. lia.
Qed.

Lemma while_true_breaks_at_zero (pre : list (Z * list listed_key))
    (keys : list listed_key) (rest : list scan_reply) (s : session) :
  Forall (λ b, b.1 ≠ 0) pre →
  while_true s ((Returns <$> pre) ++ Returns (0, keys) :: rest)
  = Completed (scan_batches s (pre ++ [(0, keys)])) rest.
Proof.
  intros Hpre. rewrite while_true_nonzero by done.
  by rewrite while_true_zero, scan_batches_snoc.
Qed.

(** * The claims about the scan *)

(** C5. The loop leaves exactly when [r.scan] returns the cursor 0: after
    any number of replies with other cursors, a reply with cursor 0 ends the
    loop there, all batches read so far having gone through the loop body and
    the replies behind it left unread; as long as no reply carries the cursor
    0 the loop goes on asking.  For the cursors 5 then 0 the loop takes two
    replies and both batches go through the loop body. *)
Theorem scan_stops_at_zero_cursor (pre : list (Z * list listed_key))
    (keys : list listed_key) (rest : list scan_reply) (s : session) :
  Forall (λ b, b.1 ≠ 0) pre →
  while_true s ((Returns <$> pre) ++ Returns (0, keys) :: rest)
  = Completed (scan_batches s (pre ++ [(0, keys)])) rest
  ∧ while_true s (Returns <$> pre) = Starved (scan_batches s pre).
Proof.
  intros Hpre. split.
  - by apply while_true_breaks_at_zero.
  - rewrite <-(app_nil_r (Returns <$> pre)). by rewrite while_true_nonzero.
Qed.

Lemma scan_stops_at_zero_cursor_witness :
  Forall (λ b : Z * list listed_key, b.1 ≠ 0) [(5, [Sample.k_a; Sample.broken])]
  ∧ (while_true initial
       ((Returns <$> [(5, [Sample.k_a; Sample.broken])])
          ++ Returns (0, [Sample.k_b]) :: [Raises])
     = Completed
         (scan_batches initial
            ([(5, [Sample.k_a; Sample.broken])] ++ [(0, [Sample.k_b])]))
         [Raises]
     ∧ while_true initial (Returns <$> [(5, [Sample.k_a; Sample.broken])])
       = Starved (scan_batches initial [(5, [Sample.k_a; Sample.broken])])).
Proof.
  split.
  - repeat constructor. simpl. lia.
  - apply (scan_stops_at_zero_cursor
             [(5, [Sample.k_a; Sample.broken])] [Sample.k_b] [Raises] initial).
    repeat constructor. simpl. lia.
Defined.

(** C6. When [N] of the [M] listed keys raise on inspection and every other
    key reports a positive memory footprint, the scan runs to its [break],
    [errors] is [N], [scanned] is [M - N], every bucket holds exactly the
    pairs of the keys of its type that did not raise, in the order listed,
    and the buckets hold [M - N] pairs together. *)
Theorem inspection_failures_are_counted (pre : list (Z * list listed_key))
    (last : list listed_key) :
  Forall (λ b, b.1 ≠ 0) pre →
  Forall (λ k, raises k = false →
               ∃ m, memory_usage k = Returns (Some m) ∧ 0 < m)
         (listed (pre ++ [(0, last)])) →
  ∃ s, scan (Returns <$> (pre ++ [(0, last)])) = Completed s []
    ∧ errors s
      = Z.of_nat (length (filter (λ k, raises k = true)
                                 (listed (pre ++ [(0, last)]))))
    ∧ scanned s
      = Z.of_nat (length (listed (pre ++ [(0, last)])))
        - Z.of_nat (length (filter (λ k, raises k = true)
                                   (listed (pre ++ [(0, last)]))))
    ∧ (∀ t, bucket s t = observed t (listed (pre ++ [(0, last)])))
    ∧ bucket_sizes (type_keys s) = scanned s.
Proof.
  intros Hpre Hkeys. exists (scan_batches initial (pre ++ [(0, last)])).
  split; [|split; [|split; [|split]]].
  - unfold scan. rewrite fmap_app. simpl.
    by apply while_true_breaks_at_zero.
  - by rewrite scan_batches_errors.
  - rewrite scan_batches_scanned. simpl.
    pose proof (observations_count _ Hkeys). lia.
  - intros t. by rewrite scan_batches_bucket.
  - symmetry. apply reachable_consistent, scan_batches_reachable. constructor.
Qed.

Lemma inspection_failures_are_counted_witness :
  Forall (λ b : Z * list listed_key, b.1 ≠ 0) [(5, [Sample.k_a; Sample.broken])]
  ∧ Forall (λ k, raises k = false →
                 ∃ m, memory_usage k = Returns (Some m) ∧ 0 < m)
      (listed ([(5, [Sample.k_a; Sample.broken])]
                 ++ [(0, [Sample.k_b; Sample.half])]))
  ∧ ∃ s, scan (Returns <$> ([(5, [Sample.k_a; Sample.broken])]
                               ++ [(0, [Sample.k_b; Sample.half])]))
         = Completed s []
    ∧ errors s = 2 ∧ scanned s = 4 - 2
    ∧ bucket s "list" = [(500, "a"); (300, "b")]%string.
Proof.
  assert (Forall (λ k, raises k = false →
                       ∃ m, memory_usage k = Returns (Some m) ∧ 0 < m)
            (listed ([(5, [Sample.k_a; Sample.broken])]
                       ++ [(0, [Sample.k_b; Sample.half])]))) as Hkeys.
  { repeat constructor; simpl; intros; try discriminate;
      eexists; (split; [reflexivity|lia]). }
  assert (Forall (λ b : Z * list listed_key, b.1 ≠ 0)
            [(5, [Sample.k_a; Sample.broken])]) as Hpre.
  { repeat constructor. simpl. lia. }
  split; [exact Hpre|]. split; [exact Hkeys|].
  destruct (inspection_failures_are_counted _ _ Hpre Hkeys)
    as (s & Hs & He & Hn & Hb & _).
  exists s. split; [exact Hs|]. split; [exact He|]. split; [exact Hn|].
  rewrite Hb. reflexivity.
Defined.

(** C7. A key whose memory query answers nil or zero is not observed: the
    loop body stores it in no bucket and does not count it in [scanned], so
    with or without it in the list of keys every bucket, hence every Top 10,
    key count and byte total, and [scanned] come out the same. *)
Theorem nothing_reported_not_observed (k : listed_key) (s : session) :
  reports_nothing k →
  type_keys (for_body s k) = type_keys s
  ∧ scanned (for_body s k) = scanned s
  ∧ ∀ (before after : list listed_key),
      scanned (foldl for_body s (before ++ k :: after))
      = scanned (foldl for_body s (before ++ after))
      ∧ ∀ t, bucket (foldl for_body s (before ++ k :: after)) t
             = bucket (foldl for_body s (before ++ after)) t.
Proof.
  intros Hk.
  assert (observation k = None) as Hobs.
  { unfold observation. destruct Hk as [-> | ->]; [done|]. by destruct (type k). }
  split; [|split].
  - unfold for_body. destruct Hk as [-> | ->]; by destruct (type k).
  - unfold for_body. destruct Hk as [-> | ->]; by destruct (type k).
  - intros before after. split.
    + rewrite !foldl_for_body_scanned, !omap_app. cbn [omap list_omap].
      by rewrite Hobs.
    + intros t. rewrite !foldl_for_body_bucket. unfold observed.
      rewrite !omap_app. cbn [omap list_omap]. by rewrite Hobs.
Qed.

Lemma nothing_reported_not_observed_witness :
  reports_nothing Sample.gone
  ∧ type_keys (for_body initial Sample.gone) = type_keys initial
  ∧ scanned (for_body initial Sample.gone) = scanned initial
  ∧ ∀ (before after : list listed_key),
      scanned (foldl for_body initial (before ++ Sample.gone :: after))
      = scanned (foldl for_body initial (before ++ after))
      ∧ ∀ t, bucket (foldl for_body initial (before ++ Sample.gone :: after)) t
             = bucket (foldl for_body initial (before ++ after)) t.
Proof.
  split.
  - left. reflexivity.
  - apply (nothing_reported_not_observed Sample.gone initial).
    left. reflexivity.
Defined.

(** C9. In every session the scan goes through, from the start to the end of
    the loop ([scan_reachable]), [scanned] is the number of pairs held by all
    buckets together. *)
Theorem scanned_is_sum_of_buckets (s : session) :
  reachable s → scanned s = bucket_sizes (type_keys s).
Proof. apply reachable_consistent. Qed.

Lemma scanned_is_sum_of_buckets_witness :
  reachable (session_of (scan [Returns (5, [Sample.k_a; Sample.broken]);
                               Returns (0, [Sample.k_s; Sample.gone])]))
  ∧ scanned (session_of (scan [Returns (5, [Sample.k_a; Sample.broken]);
                               Returns (0, [Sample.k_s; Sample.gone])]))
    = bucket_sizes
        (type_keys (session_of (scan [Returns (5, [Sample.k_a; Sample.broken]);
                                      Returns (0, [Sample.k_s; Sample.gone])]))).
Proof.
  split.
  - apply scan_reachable.
  - apply scanned_is_sum_of_buckets, scan_reachable.
Defined.

(** C10, as the script has it.  A key whose memory query answers nil or zero
    and whose type query returns leaves the whole session as it was: no
    bucket, counter or output changes. *)
Theorem nothing_reported_leaves_session (k : listed_key) (s : session)
    (key_type : string) :
  reports_nothing k → type k = Returns key_type → for_body s k = s.
Proof.
  intros Hk Ht. unfold for_body. rewrite Ht. by destruct Hk as [-> | ->].
Qed.

Lemma nothing_reported_leaves_session_witness :
  reports_nothing Sample.zero
  ∧ type Sample.zero = Returns "string"%string
  ∧ for_body initial Sample.zero = initial.
Proof.
  split; [right; reflexivity|]. split; [reflexivity|].
  apply (nothing_reported_leaves_session Sample.zero initial "string"%string).
  - right. reflexivity.
  - reflexivity.
Defined.

(** C10, as stated, fails: the memory query of [Sample.half] answers nil, its
    type query raises inside the same [try], and [errors] goes up. *)
Lemma nothing_reported_may_count_error :
  ¬ (∀ (k : listed_key) (s : session),
       reports_nothing k →
       type_keys (for_body s k) = type_keys s
       ∧ scanned (for_body s k) = scanned s
       ∧ errors (for_body s k) = errors s).
Proof.
  intros H. destruct (H Sample.half initial) as (_ & _ & He).
  - left. reflexivity.
  - vm_compute in He. discriminate He.
Qed.

(** * Ranking and totals *)

Lemma sum_mem_from (a : Z) (l : list (Z * string)) :
  foldl (λ acc x, acc + x.1) a l = a + sum_mem l.
Proof.
  unfold sum_mem. revert a. induction l as [|x l IH]; intros a; simpl; [lia|].
  rewrite (IH (a + x.1)), (IH (0 + x.1)). lia.
Qed.

Lemma sum_mem_cons (x : Z * string) (l : list (Z * string)) :
  sum_mem (x :: l) = x.1 + sum_mem l.
Proof. unfold sum_mem at 1. simpl. by rewrite sum_mem_from. Qed.

Lemma sum_mem_app (l1 l2 : list (Z * string)) :
  sum_mem (l1 ++ l2) = sum_mem l1 + sum_mem l2.
Proof.
  induction l1 as [|x l1 IH]; [done|].
  rewrite <-app_comm_cons, !sum_mem_cons, IH. lia.
Qed.

Lemma sum_mem_Permutation (l1 l2 : list (Z * string)) :
  l1 ≡ₚ l2 → sum_mem l1 = sum_mem l2.
Proof.
  induction 1 as [|x l1 l2 _ IH|x y l|l1 l2 l3 _ IH1 _ IH2].
  - done.
  - rewrite !sum_mem_cons. lia.
  - rewrite !sum_mem_cons. lia.
  - congruence.
Qed.

Lemma sum_mem_nonneg (l : list (Z * string)) :
  Forall (λ x, 0 ≤ x.1) l → 0 ≤ sum_mem l.
Proof.
  induction 1 as [|x l Hx _ IH]; [done|]. rewrite sum_mem_cons. lia.
Qed.

Lemma sorted_reverse_split (l : list (Z * string)) :
  sorted_keys l ++ drop 10 (sorted_reverse l) = sorted_reverse l.
Proof. apply take_drop. Qed.

Lemma StronglySorted_lookup {A} (R : relation A) (l : list A) (i j : nat) (x y : A) :
  StronglySorted R l → (i < j)%nat → l !! i = Some x → l !! j = Some y → R x y.
Proof.
  intros Hl. revert i j. induction Hl as [|z l _ IH Hz]; intros i j Hij Hi Hj.
  - done.
  - destruct j as [|j]; [lia|]. destruct i as [|i]; simpl in *.
    + injection Hi as ->. rewrite Forall_forall in Hz.
      apply Hz. by eapply list_elem_of_lookup_2.
    + apply (IH i j); [lia|done..].
Qed.

Lemma not_below_leb (x y : Z * string) :
  not_below x y → y.1 < x.1 ∨ (y.1 = x.1 ∧ String.leb y.2 x.2 = true).
Proof.
  rewrite not_below_spec. intros [?|[E C]]; [by left|right].
  split; [done|]. unfold String.leb.
  destruct (String.compare y.2 x.2) eqn:C'; try done.
  by apply compare_gt_lt in C'.
Qed.

(** ** The bounded aggregator *)

Lemma accumulate_id (l : list (Z * string)) : accumulate l = l.
Proof.
  unfold accumulate. induction l as [|x l IH] using rev_ind; [done|].
  by rewrite foldl_snoc, IH.
Qed.

Lemma insert_Permutation (x : Z * string) (l : list (Z * string)) :
  Aggregator.insert x l ≡ₚ x :: l.
Proof.
  induction l as [|y l IH]; simpl; [done|].
  destruct (tuple_lt y x); [done|]. rewrite IH. apply Permutation_swap.
Qed.

Lemma insert_length (x : Z * string) (l : list (Z * string)) :
  length (Aggregator.insert x l) = S (length l).
Proof. by rewrite insert_Permutation. Qed.

Lemma insert_Sorted (x : Z * string) (l : list (Z * string)) :
  Sorted not_below l → Sorted not_below (Aggregator.insert x l).
Proof.
  induction 1 as [|y l Hl IH Hy]; simpl.
  - by repeat constructor.
  - destruct (tuple_lt y x) eqn:E.
    + constructor; [by constructor|]. constructor.
      destruct (total not_below x y) as [?|Hyx]; [done|].
      unfold not_below in Hyx. congruence.
    + constructor; [done|]. destruct Hy as [|z l Hz]; simpl.
      * by constructor.
      * destruct (tuple_lt z x); by constructor.
Qed.

Lemma insert_sorted_reverse (x : Z * string) (l : list (Z * string)) :
  Aggregator.insert x (sorted_reverse l) = sorted_reverse (l ++ [x]).
Proof.
  apply sorted_reverse_unique.
  - apply insert_Sorted, Sorted_merge_sort, _.
  - rewrite insert_Permutation, sorted_reverse_Permutation.
    by rewrite Permutation_app_comm.
Qed.

(** Pairs beyond the first [K] never come back among the first [K]. *)
Lemma take_insert (K : nat) (x : Z * string) (l : list (Z * string)) :
  take K (Aggregator.insert x (take K l)) = take K (Aggregator.insert x l).
Proof.
  revert K. induction l as [|y l IH]; intros K; [by destruct K|].
  destruct K as [|K]; [done|]. simpl. destruct (tuple_lt y x); simpl.
  - f_equal. destruct K as [|K]; [done|]. simpl. f_equal.
    rewrite take_take. f_equal. lia.
  - f_equal. apply IH.
Qed.

Lemma drop_smallest (K : nat) (t : list (Z * string)) :
  (length t ≤ S K)%nat →
  (if (K <? length t)%nat then removelast t else t) = take K t.
Proof.
  intros Hlen. destruct (Nat.ltb_spec K (length t)) as [Hlt|Hge].
  - rewrite removelast_firstn_len. f_equal. lia.
  - by rewrite take_ge.
Qed.

Lemma observe_all_spec (K : nat) (l : list (Z * string)) :
  Aggregator.observe_all K l
  = {| Aggregator.topK := take K (sorted_reverse l);
       Aggregator.totalCount := total_keys l;
       Aggregator.totalBytes := sum_mem l |}.
Proof.
  unfold Aggregator.observe_all.
  induction l as [|x l IH] using rev_ind; [by destruct K|].
  rewrite foldl_snoc, IH. unfold Aggregator.observe. simpl. f_equal.
  - rewrite drop_smallest.
    + by rewrite take_insert, insert_sorted_reverse.
    + rewrite insert_length, length_take. lia.
  - unfold total_keys. rewrite length_app. simpl. lia.
  - by rewrite sum_mem_app.
Qed.

(** * The claims about the ranking *)

(** C1. Whatever the order in which the same listed keys reach the loop body,
    every type ends with the same Top 10 sequence, the same key count and
    the same byte total. *)
Theorem arrival_order_is_irrelevant (keys1 keys2 : list listed_key)
    (s : session) (t : string) :
  keys1 ≡ₚ keys2 →
  sorted_keys (bucket (foldl for_body s keys1) t)
  = sorted_keys (bucket (foldl for_body s keys2) t)
  ∧ total_keys (bucket (foldl for_body s keys1) t)
    = total_keys (bucket (foldl for_body s keys2) t)
  ∧ sum_mem (bucket (foldl for_body s keys1) t)
    = sum_mem (bucket (foldl for_body s keys2) t).
Proof.
  intros Hp. rewrite !foldl_for_body_bucket.
  assert (bucket s t ++ observed t keys1 ≡ₚ bucket s t ++ observed t keys2)
    as Hb by (unfold observed; by rewrite Hp).
  split; [|split].
  - unfold sorted_keys. by rewrite (sorted_reverse_proper _ _ Hb).
  - unfold total_keys. by rewrite Hb.
  - by apply sum_mem_Permutation.
Qed.

Lemma arrival_order_is_irrelevant_witness :
  [Sample.k_a; Sample.k_b; Sample.k_s; Sample.k_c]
    ≡ₚ [Sample.k_c; Sample.k_s; Sample.k_b; Sample.k_a]
  ∧ sorted_keys (bucket (foldl for_body initial
       [Sample.k_a; Sample.k_b; Sample.k_s; Sample.k_c]) "list")
    = sorted_keys (bucket (foldl for_body initial
       [Sample.k_c; Sample.k_s; Sample.k_b; Sample.k_a]) "list")
  ∧ total_keys (bucket (foldl for_body initial
       [Sample.k_a; Sample.k_b; Sample.k_s; Sample.k_c]) "list")
    = total_keys (bucket (foldl for_body initial
       [Sample.k_c; Sample.k_s; Sample.k_b; Sample.k_a]) "list")
  ∧ sum_mem (bucket (foldl for_body initial
       [Sample.k_a; Sample.k_b; Sample.k_s; Sample.k_c]) "list")
    = sum_mem (bucket (foldl for_body initial
       [Sample.k_c; Sample.k_s; Sample.k_b; Sample.k_a]) "list").
Proof.
  assert ([Sample.k_a; Sample.k_b; Sample.k_s; Sample.k_c]
            ≡ₚ [Sample.k_c; Sample.k_s; Sample.k_b; Sample.k_a]) as Hp.
  { exact (Permutation_rev [Sample.k_a; Sample.k_b; Sample.k_s; Sample.k_c]). }
  split; [exact Hp|].
  apply (arrival_order_is_irrelevant _ _ initial "list"%string Hp).
Defined.

(** C2. In the Top 10 of a bucket a pair standing before another has more
    memory or, on equal memory, a key name that is not smaller: ties on
    memory are ordered by descending key name. *)
Theorem ties_by_descending_name (l : list (Z * string)) (i j : nat)
    (x y : Z * string) :
  (i < j)%nat →
  sorted_keys l !! i = Some x →
  sorted_keys l !! j = Some y →
  y.1 < x.1 ∨ (y.1 = x.1 ∧ String.leb y.2 x.2 = true).
Proof.
  unfold sorted_keys. intros Hij Hi Hj.
  apply lookup_take_Some in Hi as [Hi _]. apply lookup_take_Some in Hj as [Hj _].
  apply not_below_leb.
  apply (StronglySorted_lookup not_below (sorted_reverse l) i j);
    [apply sorted_reverse_Sorted|done..].
Qed.

Lemma ties_by_descending_name_witness :
  (0 < 1)%nat
  ∧ sorted_keys [(500, "a"); (300, "b"); (500, "c")]%string !! 0%nat
    = Some (500, "c"%string)
  ∧ sorted_keys [(500, "a"); (300, "b"); (500, "c")]%string !! 1%nat
    = Some (500, "a"%string)
  ∧ (500 < 500 ∨ (500 = 500 ∧ String.leb "a" "c" = true)).
Proof.
  split; [lia|]. split; [reflexivity|]. split; [reflexivity|].
  apply (ties_by_descending_name
           [(500, "a"); (300, "b"); (500, "c")]%string 0 1
           (500, "c"%string) (500, "a"%string));
    [lia|reflexivity|reflexivity].
Defined.

(** C3. For every bucket: its Top 10 is sorted descending, holds at most ten
    pairs, is together with the pairs left out a rearrangement of the bucket,
    no pair left out has more memory than a pair of the Top 10, the key count
    of the bucket is at least the length of the Top 10 and, the memory values
    being byte counts, its byte total is at least the bytes of the Top 10. *)
Theorem top10_invariant (l : list (Z * string)) :
  StronglySorted not_below (sorted_keys l)
  ∧ (length (sorted_keys l) ≤ 10)%nat
  ∧ sorted_keys l ++ drop 10 (sorted_reverse l) ≡ₚ l
  ∧ (∀ x y, x ∈ sorted_keys l → y ∈ drop 10 (sorted_reverse l) → y.1 ≤ x.1)
  ∧ Z.of_nat (length (sorted_keys l)) ≤ total_keys l
  ∧ (Forall (λ x, 0 ≤ x.1) l → sum_mem (sorted_keys l) ≤ sum_mem l).
Proof.
  pose proof (sorted_reverse_Sorted l) as Hs.
  rewrite <-sorted_reverse_split in Hs.
  pose proof (sorted_reverse_Permutation l) as Hp.
  rewrite <-sorted_reverse_split in Hp.
  split; [|split; [|split; [|split; [|split]]]].
  - by eapply StronglySorted_app_1_l.
  - unfold sorted_keys. rewrite length_take. lia.
  - done.
  - intros x y Hx Hy.
    pose proof (StronglySorted_app_1_elem_of _ _ _ x y Hs Hx Hy) as Hxy.
    apply not_below_spec in Hxy. lia.
  - unfold total_keys. apply Permutation_length in Hp.
    rewrite length_app in Hp. lia.
  - intros Hpos. rewrite <-(sum_mem_Permutation _ _ Hp), sum_mem_app.
    assert (0 ≤ sum_mem (drop 10 (sorted_reverse l))); [|lia].
    apply sum_mem_nonneg. rewrite Forall_forall in Hpos |- *.
    intros y Hy. apply Hpos. rewrite <-Hp. set_solver.
Qed.

Lemma top10_invariant_witness :
  Forall (λ x : Z * string, 0 ≤ x.1) Sample.twelve
  ∧ StronglySorted not_below (sorted_keys Sample.twelve)
  ∧ (length (sorted_keys Sample.twelve) ≤ 10)%nat
  ∧ sorted_keys Sample.twelve ++ drop 10 (sorted_reverse Sample.twelve)
    ≡ₚ Sample.twelve
  ∧ (∀ x y, x ∈ sorted_keys Sample.twelve →
            y ∈ drop 10 (sorted_reverse Sample.twelve) → y.1 ≤ x.1)
  ∧ Z.of_nat (length (sorted_keys Sample.twelve)) ≤ total_keys Sample.twelve
  ∧ sum_mem (sorted_keys Sample.twelve) ≤ sum_mem Sample.twelve.
Proof.
  assert (Forall (λ x : Z * string, 0 ≤ x.1) Sample.twelve) as Hpos.
  { repeat constructor; simpl; lia. }
  destruct (top10_invariant Sample.twelve) as (H1 & H2 & H3 & H4 & H5 & H6).
  split; [exact Hpos|]. split; [exact H1|]. split; [exact H2|].
  split; [exact H3|]. split; [exact H4|]. split; [exact H5|exact (H6 Hpos)].
Defined.

(** C4. For every sequence of observations of one type, what the script
    reports from the list it has accumulated, sorted and cut to ten at the
    end, is what the bounded aggregator of the design holds after observing
    them one by one with [K = 10]: the same Top 10 sequence, key count and
    byte total. *)
Theorem accumulate_refines_aggregator (l : list (Z * string)) :
  sorted_keys (accumulate l) = Aggregator.topK (Aggregator.observe_all 10 l)
  ∧ total_keys (accumulate l)
    = Aggregator.totalCount (Aggregator.observe_all 10 l)
  ∧ sum_mem (accumulate l)
    = Aggregator.totalBytes (Aggregator.observe_all 10 l).
Proof. by rewrite accumulate_id, observe_all_spec. Qed.

(** * The report *)

Lemma tables_imap_rows (f : nat → Z * string → line) (top : list (Z * string)) :
  (∀ i x, ∃ idx mem key, f i x = Row idx mem key) → tables (imap f top) = [].
Proof.
  revert f. induction top as [|x top IH]; intros f Hf; [done|].
  unfold tables in *. simpl. destruct (Hf 0%nat x) as (idx & mem & key & ->).
  apply IH. intros i y. apply Hf.
Qed.

Lemma tables_rows (top : list (Z * string)) : tables (rows top) = [].
Proof. apply tables_imap_rows. intros i x. eauto. Qed.

Lemma sorted_keys_nil (b : list (Z * string)) : sorted_keys b = [] ↔ b = [].
Proof.
  split; [|by intros ->]. intros Hnil.
  pose proof (sorted_reverse_Permutation b) as Hp.
  unfold sorted_keys in Hnil.
  destruct (sorted_reverse b) as [|x l]; [|done].
  by apply Permutation_nil in Hp.
Qed.

Lemma tables_table_of (t : string) (b : list (Z * string)) :
  tables (table_of t b) = if decide (b = []) then [] else [t].
Proof.
  unfold table_of. destruct (sorted_keys b) as [|x top] eqn:E.
  - apply sorted_keys_nil in E as ->. done.
  - destruct (decide (b = [])) as [->|_]; [done|].
    unfold tables. cbn [omap list_omap]. f_equal.
    rewrite omap_app. fold (tables (rows (x :: top))).
    by rewrite tables_rows.
Qed.

Lemma tables_table (d : gmap string (list (Z * string))) (t : string) :
  tables (table d t) = if decide (default [] (d !! t) = []) then [] else [t].
Proof.
  unfold table. destruct (d !! t) as [b|]; [|done]. apply tables_table_of.
Qed.

Lemma tables_app (l1 l2 : list line) : tables (l1 ++ l2) = tables l1 ++ tables l2.
Proof. apply omap_app. Qed.

(** The tables of the report are those of the six listed types whose bucket
    holds something, in the listed order. *)
Lemma tables_report (d : gmap string (list (Z * string))) :
  tables (report d) = filter (λ t, default [] (d !! t) ≠ []) display_order.
Proof.
  unfold report, display_order. cbn [mbind list_bind].
  rewrite !tables_app, !tables_table, !filter_cons, filter_nil.
  repeat match goal with
  | |- context [decide (default [] (d !! ?t) = [])] =>
      destruct (decide (default [] (d !! t) = []))
  end;
  repeat match goal with
  | |- context [decide (default [] (d !! ?t) ≠ [])] =>
      destruct (decide (default [] (d !! t) ≠ [])); try done
  end.
Qed.

Lemma observed_nonempty (t : string) (keys : list listed_key) :
  observed t keys ≠ [] ↔ t ∈ observed_types keys.
Proof.
  unfold observed, observed_types. induction keys as [|k keys IH].
  - split; [done|]. by intros ?%elem_of_nil.
  - cbn [omap list_omap]. destruct (observation k) as [[t' x]|]; [|done].
    rewrite fmap_cons, elem_of_cons. simpl.
    destruct (decide (t' = t)) as [->|Hne]; [by split; [left|]|].
    rewrite IH. split; [by right|]. intros [->|?]; done.
Qed.

(** C8, as the script has it.  After a scan the report holds one ranked table
    for each of string, list, set, zset, hash and stream that was observed,
    in this order, and no other table. *)
Theorem report_tables_in_display_order (batches : list (Z * list listed_key)) :
  tables (report (type_keys (scan_batches initial batches)))
  = filter (λ t, t ∈ observed_types (listed batches)) display_order.
Proof.
  rewrite tables_report. apply list_filter_iff. intros t.
  fold (bucket (scan_batches initial batches) t).
  rewrite scan_batches_bucket. apply observed_nonempty.
Qed.

(** C8, as stated, fails: a key of a type outside the six is observed and
    stored, and the report holds no table for its type. *)
Lemma other_type_has_no_table :
  ¬ (∀ (batches : list (Z * list listed_key)) (t : string),
       t ∈ observed_types (listed batches) →
       t ∈ tables (report (type_keys (scan_batches initial batches)))).
Proof.
  intros H.
  specialize (H [(0, [Sample.k_s; Sample.doc])] "ReJSON-RL"%string).
  assert (tables (report (type_keys
            (scan_batches initial [(0, [Sample.k_s; Sample.doc])])))
          = ["string"%string]) as E by (vm_compute; reflexivity).
  rewrite E in H.
  assert ("ReJSON-RL"%string
          ∈ observed_types (listed [(0, [Sample.k_s; Sample.doc])])) as Hobs.
  { vm_compute. apply elem_of_cons. right. apply elem_of_cons. by left. }
  apply H in Hobs. apply elem_of_cons in Hobs as [Hobs|Hobs%elem_of_nil]; [|done]. discriminate Hobs.
Qed.

Example report_of_sample :
  report (type_keys (scan_batches initial
            [(5, [Sample.k_a; Sample.k_s; Sample.gone]);
             (0, [Sample.k_b; Sample.doc; Sample.k_c])]))
  = [Header "string"; Row 1 72 "s"; Stats 1 72 72;
     Header "list"; Row 1 500 "c"; Row 2 500 "a"; Row 3 300 "b";
     Stats 3 1300 1300]%string.
Proof. vm_compute. reflexivity. Qed.

(** ** The scenarios of the design *)

(** Cursors 5 then 0: two replies are taken, the third is never asked for. *)
Example scan_two_calls :
  ∃ s, scan [Returns (5, [Sample.k_a; Sample.broken]);
             Returns (0, [Sample.k_b]); Raises]
       = Completed s [Raises]
    ∧ scanned s = 2 ∧ errors s = 1 ∧ cursor s = 0
    ∧ bucket s "list" = [(500, "a"); (300, "b")]%string.
Proof. eexists. repeat split; vm_compute; reflexivity. Qed.

(** A cursor that has not come back to 0 keeps the loop asking. *)
Example scan_not_finished :
  ∃ s, scan [Returns (5, [Sample.k_a; Sample.broken])] = Starved s
    ∧ cursor s = 5.
Proof. eexists. split; vm_compute; reflexivity. Qed.

(** [K = 2], memory 10, 20, 30 in any arrival order. *)
Example aggregator_keeps_two_largest :
  Aggregator.topK (Aggregator.observe_all 2 [(10, "x"); (20, "y"); (30, "z")])
  = [(30, "z"); (20, "y")]%string
  ∧ Aggregator.topK (Aggregator.observe_all 2 [(30, "z"); (10, "x"); (20, "y")])
    = [(30, "z"); (20, "y")]%string.
Proof. split; vm_compute; reflexivity. Qed.

(** More than ten pairs: the two smallest are left out, the tie on 70 is
    ordered by descending name. *)
Example sorted_keys_twelve :
  sorted_keys Sample.twelve
  = [(120, "k08"); (110, "k12"); (90, "k03"); (80, "k11"); (70, "k06");
     (70, "k04"); (60, "k10"); (50, "k09"); (40, "k01"); (30, "k07")]%string
  ∧ Aggregator.topK (Aggregator.observe_all 10 Sample.twelve)
    = sorted_keys Sample.twelve.
Proof. split; vm_compute; reflexivity. Qed.

(** A key of 200 characters is shown by its first 77 and an ellipsis. *)
Example key_display_long :
  String.length (key_display (String.concat "" (replicate 200 "k"))) = 80%nat
  ∧ key_display "short" = "short"%string.
Proof. split; vm_compute; reflexivity. Qed.

(** * The command line *)

Lemma split_colon_1_no_colon (arg : string) :
  has_colon arg = false → split_colon_1 arg = [arg].
Proof.
  induction arg as [|c rest IH]; simpl; [done|].
  destruct (Ascii.eqb c ":"); simpl; [done|]. intros H. by rewrite IH.
Qed.

Lemma split_colon_1_colon (arg : string) :
  has_colon arg = true →
  ∃ h p, split_colon_1 arg = [h; p]
         ∧ arg = (h ++ ":" ++ p)%string ∧ has_colon h = false.
Proof.
  induction arg as [|c rest IH]; simpl; [done|].
  destruct (Ascii.eqb_spec c ":") as [->|Hc]; simpl.
  - intros _. by exists EmptyString, rest.
  - intros H. destruct (IH H) as (h & p & -> & -> & Hh).
    exists (String c h), p. simpl.
    apply Ascii.eqb_neq in Hc. by rewrite Hc.
Qed.

Lemma has_colon_app (h p : string) :
  has_colon (h ++ ":" ++ p)%string = true.
Proof.
  induction h as [|c h IH]; simpl; [done|]. rewrite IH. apply orb_true_r.
Qed.

Lemma split_colon_1_app (h p : string) :
  has_colon h = false → split_colon_1 (h ++ ":" ++ p)%string = [h; p].
Proof.
  induction h as [|c h IH]; simpl; [done|].
  destruct (Ascii.eqb c ":"); simpl; [done|]. intros H. by rewrite IH.
Qed.

(** X1. The split cuts at the first colon and nowhere else: a text with a colon
    gives exactly two parts that, joined by a colon, are the text again, the
    first part free of colons; a text without colon comes back alone. *)
Theorem split_at_first_colon (arg : string) :
  (has_colon arg = true →
   ∃ h p, split_colon_1 arg = [h; p]
          ∧ arg = (h ++ ":" ++ p)%string ∧ has_colon h = false)
  ∧ (has_colon arg = false → split_colon_1 arg = [arg]).
Proof.
  split; [apply split_colon_1_colon|apply split_colon_1_no_colon].
Qed.

Lemma split_at_first_colon_witness :
  has_colon "10.0.0.1:6380:x" = true
  ∧ ∃ h p, split_colon_1 "10.0.0.1:6380:x" = [h; p]
           ∧ "10.0.0.1:6380:x"%string = (h ++ ":" ++ p)%string
           ∧ has_colon h = false.
Proof.
  split; [reflexivity|].
  apply (proj1 (split_at_first_colon "10.0.0.1:6380:x")). reflexivity.
Defined.

(** X2. One argument [host:port]: the host is the text before the first colon,
    the port what [int] reads after it, and [int] raising is the only way to
    fail. *)
Theorem parse_host_colon_port (int : string → reply Z) (h p : string) :
  has_colon h = false →
  parse_host_port int [(h ++ ":" ++ p)%string]
  = match int p with Returns n => Returns (h, n) | Raises => Raises end.
Proof.
  intros Hh. unfold parse_host_port.
  by rewrite has_colon_app, split_colon_1_app.
Qed.

Lemma parse_host_colon_port_witness :
  has_colon "redis.internal" = false
  ∧ parse_host_port decimal ["redis.internal:6380"%string]
    = Returns ("redis.internal"%string, 6380).
Proof.
  split; [reflexivity|].
  exact (parse_host_colon_port decimal "redis.internal" "6380" eq_refl).
Defined.

(** X3. Parsing the command line fails only through [int]: whenever it raises,
    [int] raised on the port text, which is the second argument or what
    follows the first colon of a single argument.  The unpacking of the split
    never fails. *)
Theorem parse_raises_only_through_int (int : string → reply Z)
    (args : list string) :
  parse_host_port int args = Raises →
  ∃ p, int p = Raises
       ∧ ((∃ h, args = [(h ++ ":" ++ p)%string] ∧ has_colon h = false)
          ∨ ∃ arg0 rest, args = arg0 :: p :: rest).
Proof.
  unfold parse_host_port. destruct args as [|arg0 [|arg1 rest]]; [done| |].
  - destruct (has_colon arg0) eqn:Hc; [|done].
    destruct (split_colon_1_colon arg0 Hc) as (h & p & -> & -> & Hh).
    destruct (int p) eqn:Hp; [done|]. intros _. exists p. split; [done|].
    left. by exists h.
  - destruct (int arg1) eqn:Hp; [done|]. intros _. exists arg1.
    split; [done|]. right. by exists arg0, rest.
Qed.

Lemma parse_raises_only_through_int_witness :
  parse_host_port decimal ["localhost:redis"%string] = Raises
  ∧ ∃ p, decimal p = Raises
         ∧ ((∃ h, ["localhost:redis"%string] = [(h ++ ":" ++ p)%string]
                  ∧ has_colon h = false)
            ∨ ∃ arg0 rest, ["localhost:redis"%string] = arg0 :: p :: rest).
Proof.
  split; [reflexivity|].
  apply (parse_raises_only_through_int decimal ["localhost:redis"%string]).
  reflexivity.
Defined.

(** X4. Without a port text the defaults apply and nothing can fail: no argument
    gives [localhost] and 6379, a single argument without colon is the host
    with port 6379, whatever [int] does.  A returned host of a single
    argument never holds a colon. *)
Theorem parse_defaults (int : string → reply Z) (arg : string) (h : string)
    (n : Z) :
  parse_host_port int [] = Returns ("localhost"%string, 6379)
  ∧ (has_colon arg = false → parse_host_port int [arg] = Returns (arg, 6379))
  ∧ (parse_host_port int [arg] = Returns (h, n) → has_colon h = false).
Proof.
  split; [done|]. unfold parse_host_port. split.
  - by intros ->.
  - destruct (has_colon arg) eqn:Hc.
    + destruct (split_colon_1_colon arg Hc) as (h' & p & -> & _ & Hh).
      destruct (int p); [|done]. by intros [= <- _].
    + by intros [= <- _].
Qed.

Lemma parse_defaults_witness :
  has_colon "cache-01" = false
  ∧ parse_host_port decimal ["cache-01"%string] = Returns ("cache-01"%string, 6379).
Proof.
  split; [reflexivity|].
  apply (parse_defaults decimal "cache-01" "cache-01" 6379). reflexivity.
Defined.

(** * More on the scan *)

Lemma append_lookup_Some (t t' : string) (x : Z * string)
    (d : gmap string (list (Z * string))) (b : list (Z * string)) :
  append t' x d !! t = Some b →
  (t = t' ∧ b = default [] (d !! t) ++ [x]) ∨ (t ≠ t' ∧ d !! t = Some b).
Proof.
  unfold append. destruct (decide (t' = t)) as [->|Hne].
  - rewrite lookup_insert_eq. intros [= <-]. by left.
  - rewrite lookup_insert_ne by done. intros H. right. by split.
Qed.

Lemma for_body_stored (s : session) (k : listed_key) :
  (∀ t b, type_keys s !! t = Some b → b ≠ [] ∧ Forall (λ x, x.1 ≠ 0) b) →
  ∀ t b, type_keys (for_body s k) !! t = Some b →
         b ≠ [] ∧ Forall (λ x, x.1 ≠ 0) b.
Proof.
  intros Hs t b. unfold for_body.
  destruct (memory_usage k) as [[m|]|], (type k) as [t'|]; simpl;
    try apply (Hs t b).
  destruct (Z.eqb_spec m 0) as [|Hm]; [apply (Hs t b)|].
  destruct (record_key_fields t' m (name k) s) as [-> _].
  intros [[-> ->]|[_ Hb]]%append_lookup_Some; [|by apply (Hs t b)]. split.
  - by destruct (default [] (type_keys s !! t')).
  - apply Forall_app. split; [|by repeat constructor].
    destruct (type_keys s !! t') as [b'|] eqn:E; simpl; [|done].
    by apply (Hs t' b').
Qed.

Lemma reachable_stored (s : session) :
  reachable s →
  ∀ t b, type_keys s !! t = Some b → b ≠ [] ∧ Forall (λ x, x.1 ≠ 0) b.
Proof.
  induction 1 as [|s c _ IH|s k _ IH].
  - intros t b. simpl. by rewrite lookup_empty.
  - done.
  - by apply for_body_stored.
Qed.

(** X5. Throughout the scan no bucket is empty and no stored pair has memory 0:
    a type is in [type_keys] only once a key of it has been stored. *)
Theorem stored_buckets_are_inhabited (s : session) (t : string)
    (b : list (Z * string)) :
  reachable s → type_keys s !! t = Some b →
  b ≠ [] ∧ Forall (λ x, x.1 ≠ 0) b.
Proof. intros Hs. by apply reachable_stored. Qed.

Lemma stored_buckets_are_inhabited_witness :
  reachable (for_body (for_body initial Sample.k_a) Sample.zero)
  ∧ type_keys (for_body (for_body initial Sample.k_a) Sample.zero) !! "list"%string
    = Some [(500, "a"%string)]
  ∧ [(500, "a"%string)] ≠ []
  ∧ Forall (λ x : Z * string, x.1 ≠ 0) [(500, "a"%string)].
Proof.
  assert (reachable (for_body (for_body initial Sample.k_a) Sample.zero)) as Hr
    by (do 2 constructor; constructor).
  split; [exact Hr|]. split; [reflexivity|].
  exact (stored_buckets_are_inhabited _ "list"%string _ Hr eq_refl).
Defined.





Lemma keys_partition (keys : list listed_key) :
  (length (omap observation keys)
   + length (filter (λ k, raises k = true) keys)
   + length (filter (λ k, skipped k = true) keys) = length keys)%nat.
Proof.
  induction keys as [|k keys IH]; [done|].
  rewrite !filter_cons. cbn [omap list_omap].
  assert (raises k = true → observation k = None) as Hro.
  { unfold raises, observation.
    by destruct (memory_usage k) as [[m|]|], (type k). }
  destruct (decide (raises k = true)) as [Hr|Hr],
    (decide (skipped k = true)) as [Hs|Hs],
    (observation k) as [o|] eqn:Ho; simpl; try lia; exfalso;
    unfold skipped in Hs; rewrite Ho in Hs;
    destruct (raises k); simpl in Hs; try done;
    specialize (Hro eq_refl); congruence.
Qed.

(** X7. Every listed key is accounted for once: it is stored and counted in
    [scanned], or it raised and is counted in [errors], or it reported nothing
    and is counted nowhere. *)
Theorem listed_keys_are_accounted (batches : list (Z * list listed_key)) :
  Z.of_nat (length (listed batches))
  = scanned (scan_batches initial batches)
    + errors (scan_batches initial batches)
    + Z.of_nat (length (filter (λ k, skipped k = true) (listed batches))).
Proof.
  rewrite scan_batches_scanned, scan_batches_errors. simpl.
  pose proof (keys_partition (listed batches)). lia.
Qed.

(** X8. [r.scan] raising ends the loop at once: the batches read so far have gone
    through the loop body, nothing is retried and no later reply is used. *)
Theorem scan_failure_is_fatal (pre : list (Z * list listed_key))
    (rest : list scan_reply) (s : session) :
  Forall (λ b, b.1 ≠ 0) pre →
  while_true s ((Returns <$> pre) ++ Raises :: rest)
  = Uncaught (scan_batches s pre).
Proof. intros Hpre. by rewrite while_true_nonzero. Qed.

Lemma scan_failure_is_fatal_witness :
  Forall (λ b : Z * list listed_key, b.1 ≠ 0) [(7, [Sample.k_a])]
  ∧ while_true initial
      ((Returns <$> [(7, [Sample.k_a])]) ++ Raises :: [Returns (0, [Sample.k_b])])
    = Uncaught (scan_batches initial [(7, [Sample.k_a])]).
Proof.
  split.
  - repeat constructor. simpl. lia.
  - apply (scan_failure_is_fatal [(7, [Sample.k_a])]
             [Returns (0, [Sample.k_b])] initial).
    repeat constructor. simpl. lia.
Defined.

(** ** The progress messages *)

Lemma progress_lines_S (n : nat) :
  progress_lines (S n)
  = progress_lines n ++ [Progress (10000 * (Z.of_nat n + 1))].
Proof. unfold progress_lines. by rewrite seq_S, fmap_app. Qed.

Lemma next_count_multiple (n : Z) :
  0 ≤ n → (n + 1) mod 10000 = 0 →
  Z.to_nat ((n + 1) / 10000) = S (Z.to_nat (n / 10000))
  ∧ n + 1 = 10000 * (Z.of_nat (Z.to_nat (n / 10000)) + 1).
Proof.
  intros Hn Hm.
  assert (0 ≤ n / 10000) by (apply Z.div_pos; lia).
  assert ((n + 1) / 10000 = n / 10000 + 1) as E
    by (Z.div_mod_to_equations; lia).
  rewrite E. split; [lia|]. rewrite Z2Nat.id by done.
  Z.div_mod_to_equations. lia.
Qed.

Lemma next_count_other (n : Z) :
  0 ≤ n → (n + 1) mod 10000 ≠ 0 → (n + 1) / 10000 = n / 10000.
Proof. intros Hn Hm. Z.div_mod_to_equations. lia. Qed.

Lemma for_body_progress (s : session) (k : listed_key) :
  0 ≤ scanned s ∧ stdout s = progress_lines (Z.to_nat (scanned s / 10000)) →
  0 ≤ scanned (for_body s k)
  ∧ stdout (for_body s k)
    = progress_lines (Z.to_nat (scanned (for_body s k) / 10000)).
Proof.
  intros [Hn Hout]. unfold for_body.
  destruct (memory_usage k) as [[m|]|], (type k) as [t'|]; simpl; try done.
  destruct (m =? 0); [done|]. unfold record_key. simpl.
  destruct (Z.eqb_spec ((scanned s + 1) mod 10000) 0) as [Hm|Hm]; simpl.
  - destruct (next_count_multiple (scanned s) Hn Hm) as [-> E].
    split; [lia|]. by rewrite progress_lines_S, Hout, <-E.
  - rewrite (next_count_other (scanned s) Hn Hm). split; [lia|done].
Qed.

Lemma reachable_progress (s : session) :
  reachable s →
  0 ≤ scanned s ∧ stdout s = progress_lines (Z.to_nat (scanned s / 10000)).
Proof.
  induction 1 as [|s c _ IH|s k _ IH].
  - done.
  - done.
  - by apply for_body_progress.
Qed.

(** X9. During the scan a progress message is printed each time the number of
    stored keys reaches a multiple of 10000 and at no other time: the messages
    so far are those for 10000, 20000, ... up to [scanned], which never goes
    below zero. *)
Theorem progress_every_10000 (s : session) :
  reachable s →
  0 ≤ scanned s
  ∧ stdout s = progress_lines (Z.to_nat (scanned s / 10000))
  ∧ (scanned s < 10000 → stdout s = []).
Proof.
  intros Hs. destruct (reachable_progress s Hs) as [Hn Hout].
  split; [done|]. split; [done|]. intros Hlt.
  rewrite Hout, Z.div_small by lia. done.
Qed.

Lemma progress_every_10000_witness :
  reachable (scan_batches initial [(0, [Sample.k_a; Sample.k_b; Sample.broken])])
  ∧ 0 ≤ scanned (scan_batches initial [(0, [Sample.k_a; Sample.k_b; Sample.broken])])
  ∧ stdout (scan_batches initial [(0, [Sample.k_a; Sample.k_b; Sample.broken])])
    = progress_lines (Z.to_nat
        (scanned (scan_batches initial
                    [(0, [Sample.k_a; Sample.k_b; Sample.broken])]) / 10000))
  ∧ (scanned (scan_batches initial [(0, [Sample.k_a; Sample.k_b; Sample.broken])])
       < 10000 →
     stdout (scan_batches initial [(0, [Sample.k_a; Sample.k_b; Sample.broken])])
     = []).
Proof.
  assert (reachable
            (scan_batches initial [(0, [Sample.k_a; Sample.k_b; Sample.broken])]))
    as Hr by (apply scan_batches_reachable; constructor).
  split; [exact Hr|]. exact (progress_every_10000 _ Hr).
Defined.

(** * More on the tables *)






Lemma rows_lookup (top : list (Z * string)) (i : nat) :
  rows top !! i
  = (λ x, Row (Z.of_nat i + 1) x.1 (key_display x.2)) <$> top !! i.
Proof. unfold rows. apply list_lookup_imap. Qed.

(** X11. The rows of a table are ranked 1, 2, 3, ... from the top and a row never
    shows more memory than a row above it. *)
Theorem rows_are_ranked (b : list (Z * string)) (i j : nat)
    (r1 r2 m1 m2 : Z) (d1 d2 : string) :
  (i < j)%nat →
  rows (sorted_keys b) !! i = Some (Row r1 m1 d1) →
  rows (sorted_keys b) !! j = Some (Row r2 m2 d2) →
  r1 = Z.of_nat i + 1 ∧ r2 = Z.of_nat j + 1 ∧ m2 ≤ m1.
Proof.
  intros Hij. rewrite !rows_lookup.
  destruct (sorted_keys b !! i) as [x|] eqn:Hi; [|done].
  destruct (sorted_keys b !! j) as [y|] eqn:Hj; [|done].
  simpl. intros [= <- <- <-] [= <- <- <-]. split; [done|]. split; [done|].
  unfold sorted_keys in Hi, Hj.
  apply lookup_take_Some in Hi as [Hi _]. apply lookup_take_Some in Hj as [Hj _].
  assert (not_below x y) as Hxy.
  { apply (StronglySorted_lookup not_below (sorted_reverse b) i j);
      [apply sorted_reverse_Sorted|done..]. }
  apply not_below_spec in Hxy. lia.
Qed.

Lemma rows_are_ranked_witness :
  (0 < 2)%nat
  ∧ rows (sorted_keys [(500, "a"); (300, "b"); (500, "c")]%string) !! 0%nat
    = Some (Row 1 500 "c")
  ∧ rows (sorted_keys [(500, "a"); (300, "b"); (500, "c")]%string) !! 2%nat
    = Some (Row 3 300 "b")
  ∧ 1 = Z.of_nat 0 + 1 ∧ 3 = Z.of_nat 2 + 1 ∧ 300 ≤ 500.
Proof.
  split; [lia|]. split; [reflexivity|]. split; [reflexivity|].
  apply (rows_are_ranked [(500, "a"); (300, "b"); (500, "c")]%string 0 2
           1 3 500 300 "c" "b"); [lia|reflexivity|reflexivity].
Defined.

(** X12. A type with at most ten stored keys shows them all: its Top 10 is the
    whole bucket rearranged and carries the whole memory of the type. *)
Theorem small_bucket_shown_whole (b : list (Z * string)) :
  (length b ≤ 10)%nat →
  sorted_keys b = sorted_reverse b
  ∧ sorted_keys b ≡ₚ b
  ∧ sum_mem (sorted_keys b) = sum_mem b.
Proof.
  intros Hlen.
  assert (sorted_keys b = sorted_reverse b) as E.
  { unfold sorted_keys. apply take_ge.
    by rewrite (Permutation_length (sorted_reverse_Permutation b)). }
  rewrite E. split; [done|]. split; [apply sorted_reverse_Permutation|].
  apply sum_mem_Permutation, sorted_reverse_Permutation.
Qed.

Lemma small_bucket_shown_whole_witness :
  (length [(500, "a"); (300, "b"); (500, "c")]%string ≤ 10)%nat
  ∧ sorted_keys [(500, "a"); (300, "b"); (500, "c")]%string
    = sorted_reverse [(500, "a"); (300, "b"); (500, "c")]%string
  ∧ sorted_keys [(500, "a"); (300, "b"); (500, "c")]%string
    ≡ₚ [(500, "a"); (300, "b"); (500, "c")]%string
  ∧ sum_mem (sorted_keys [(500, "a"); (300, "b"); (500, "c")]%string)
    = sum_mem [(500, "a"); (300, "b"); (500, "c")]%string.
Proof.
  split; [simpl; lia|].
  apply (small_bucket_shown_whole [(500, "a"); (300, "b"); (500, "c")]%string).
  simpl. lia.
Defined.

(** * The summary *)

Lemma sorted_types_Permutation (d : gmap string (list (Z * string))) :
  sorted_types d ≡ₚ (map_to_list d).*1.
Proof. apply merge_sort_Permutation. Qed.

Lemma sorted_types_elem (d : gmap string (list (Z * string))) (t : string) :
  t ∈ sorted_types d ↔ is_Some (d !! t).
Proof.
  rewrite sorted_types_Permutation, list_elem_of_fmap. split.
  - intros ([t' b] & -> & Hb%elem_of_map_to_list). by exists b.
  - intros [b Hb]. exists (t, b). split; [done|]. by apply elem_of_map_to_list.
Qed.

Lemma summary_types_rows (d : gmap string (list (Z * string))) (l : list string)
    (last : list summary_line) :
  summary_types ((summary_row d <$> l) ++ last) = l ++ summary_types last.
Proof.
  induction l as [|t l IH]; [done|].
  rewrite fmap_cons, <-!app_comm_cons. unfold summary_types in *.
  cbn [omap list_omap summary_row]. by rewrite IH.
Qed.

Lemma summary_types_summary (s : session) :
  summary_types (summary s) = sorted_types (type_keys s).
Proof. unfold summary. by rewrite summary_types_rows, app_nil_r. Qed.

(** X13. The summary has one row for each type in [type_keys], whether one of the
    six displayed types or not, each type once, in ascending order of the
    type names. *)
Theorem summary_rows_by_type (s : session) :
  StronglySorted String.le (summary_types (summary s))
  ∧ NoDup (summary_types (summary s))
  ∧ ∀ t, t ∈ summary_types (summary s) ↔ is_Some (type_keys s !! t).
Proof.
  rewrite summary_types_summary. split; [|split].
  - apply StronglySorted_merge_sort; apply _.
  - rewrite sorted_types_Permutation. apply NoDup_fst_map_to_list.
  - intros t. apply sorted_types_elem.
Qed.

(** X14. After a scan the summary lists exactly the observed types, so a type
    outside the six displayed ones still has its row there. *)
Theorem summary_lists_observed_types (batches : list (Z * list listed_key))
    (t : string) :
  t ∈ summary_types (summary (scan_batches initial batches))
  ↔ t ∈ observed_types (listed batches).
Proof.
  rewrite summary_types_summary, sorted_types_elem, <-observed_nonempty.
  rewrite <-(app_nil_l (observed t (listed batches))).
  change [] with (bucket initial t) at 1. rewrite <-scan_batches_bucket.
  unfold bucket. split.
  - intros [b Hb]. rewrite Hb. simpl.
    apply (reachable_stored (scan_batches initial batches)) in Hb as [Hb _];
      [done|]. apply scan_batches_reachable. constructor.
  - destruct (type_keys (scan_batches initial batches) !! t); [by eexists|done].
Qed.

Lemma summary_counts_rows (d : gmap string (list (Z * string))) (l : list string)
    (n m : Z) :
  summary_counts ((summary_row d <$> l) ++ [GrandTotal n m])
  = foldr (λ t acc, total_keys (default [] (d !! t)) + acc) 0 l.
Proof. induction l as [|t l IH]; [done|]. simpl. by rewrite <-IH. Qed.

Lemma summary_mems_rows (d : gmap string (list (Z * string))) (l : list string)
    (n m : Z) :
  summary_mems ((summary_row d <$> l) ++ [GrandTotal n m])
  = foldr (λ t acc, sum_mem (default [] (d !! t)) + acc) 0 l.
Proof. induction l as [|t l IH]; [done|]. simpl. by rewrite <-IH. Qed.

Lemma foldr_keys (g : list (Z * string) → Z)
    (d : gmap string (list (Z * string))) (l : list (string * list (Z * string))) :
  Forall (λ kv, d !! kv.1 = Some kv.2) l →
  foldr (λ t acc, g (default [] (d !! t)) + acc) 0 l.*1
  = foldr (λ kv acc, g kv.2 + acc) 0 l.
Proof.
  induction 1 as [|[t b] l Hkv _ IH]; [done|]. simpl in Hkv.
  rewrite fmap_cons. cbn [foldr fst snd]. by rewrite Hkv, IH.
Qed.

Lemma foldr_types (g : list (Z * string) → Z)
    (d : gmap string (list (Z * string))) :
  foldr (λ t acc, g (default [] (d !! t)) + acc) 0 (sorted_types d)
  = foldr (λ kv acc, g kv.2 + acc) 0 (map_to_list d).
Proof.
  rewrite <-(foldr_keys g d).
  - apply (foldr_permutation_proper (=)).
    + intros t ?? ->. done.
    + intros. lia.
    + apply sorted_types_Permutation.
  - apply Forall_forall. intros [t b] Hb. by apply elem_of_map_to_list.
Qed.

Lemma summary_counts_summary (s : session) :
  summary_counts (summary s) = bucket_sizes (type_keys s).
Proof.
  unfold summary, bucket_sizes.
  rewrite summary_counts_rows, (foldr_types total_keys), map_fold_foldr.
  induction (map_to_list (type_keys s)) as [|[t b] l IH]; [done|].
  simpl. by rewrite IH.
Qed.

Lemma summary_mems_summary (s : session) :
  summary_mems (summary s) = total_all_mem (type_keys s).
Proof.
  unfold summary, total_all_mem.
  rewrite summary_mems_rows, (foldr_types sum_mem), map_fold_foldr.
  induction (map_to_list (type_keys s)) as [|[t b] l IH]; [done|].
  simpl. rewrite IH. lia.
Qed.

(** X15. The closing line agrees with the rows above it: after a scan the key
    counts of the rows add up to [scanned], the memory of the rows adds up to
    the grand total, and the last line carries both. *)
Theorem summary_rows_add_up (s : session) :
  reachable s →
  summary_counts (summary s) = scanned s
  ∧ summary_mems (summary s) = total_all_mem (type_keys s)
  ∧ last (summary s)
    = Some (GrandTotal (scanned s) (total_all_mem (type_keys s))).
Proof.
  intros Hs. split; [|split].
  - by rewrite summary_counts_summary, <-reachable_consistent.
  - apply summary_mems_summary.
  - unfold summary. apply last_snoc.
Qed.

Lemma summary_rows_add_up_witness :
  reachable (scan_batches initial [(0, [Sample.k_a; Sample.doc; Sample.k_s])])
  ∧ summary_counts
      (summary (scan_batches initial [(0, [Sample.k_a; Sample.doc; Sample.k_s])]))
    = scanned (scan_batches initial [(0, [Sample.k_a; Sample.doc; Sample.k_s])]).
Proof.
  assert (reachable
            (scan_batches initial [(0, [Sample.k_a; Sample.doc; Sample.k_s])]))
    as Hr by (apply scan_batches_reachable; constructor).
  split; [exact Hr|]. exact (proj1 (summary_rows_add_up _ Hr)).
Defined.

Example summary_of_sample :
  summary (scan_batches initial [(0, [Sample.k_a; Sample.doc; Sample.k_s])])
  = [SummaryRow "ReJSON-RL" 1 64; SummaryRow "list" 1 500;
     SummaryRow "string" 1 72; GrandTotal 3 636]%string.
Proof. vm_compute. reflexivity. Qed.

Lemma total_all_mem_append (t : string) (x : Z * string)
    (d : gmap string (list (Z * string))) :
  total_all_mem (append t x d) = total_all_mem d + x.1.
Proof.
  unfold append, total_all_mem. destruct (d !! t) as [b|] eqn:E; simpl.
  - rewrite (map_fold_delete_L _ _ t b d); [|intros; lia|done].
    rewrite <-insert_delete_eq.
    rewrite map_fold_insert_L; [|intros; lia|apply lookup_delete_eq].
    rewrite sum_mem_app, sum_mem_cons. unfold sum_mem at 3. simpl. lia.
  - rewrite map_fold_insert_L; [|intros; lia|done].
    rewrite sum_mem_cons. unfold sum_mem. simpl. lia.
Qed.

Lemma for_body_total_all_mem (s : session) (k : listed_key) :
  total_all_mem (type_keys (for_body s k))
  = total_all_mem (type_keys s) + sum_mem (omap observation [k]).*2.
Proof.
  unfold for_body, observation. cbn [omap list_omap].
  destruct (memory_usage k) as [[m|]|], (type k) as [t'|]; simpl;
    try (unfold sum_mem; simpl; lia).
  destruct (m =? 0); simpl; [unfold sum_mem; simpl; lia|].
  destruct (record_key_fields t' m (name k) s) as [-> _].
  rewrite total_all_mem_append. unfold sum_mem. simpl. lia.
Qed.

Lemma foldl_for_body_total_all_mem (keys : list listed_key) (s : session) :
  total_all_mem (type_keys (foldl for_body s keys))
  = total_all_mem (type_keys s) + sum_mem (omap observation keys).*2.
Proof.
  revert s. induction keys as [|k keys IH]; intros s.
  - unfold sum_mem. simpl. lia.
  - change (foldl for_body s (k :: keys))
      with (foldl for_body (for_body s k) keys).
    rewrite IH, for_body_total_all_mem.
    change (k :: keys) with ([k] ++ keys).
    rewrite omap_app, fmap_app, sum_mem_app. lia.
Qed.

(** X16. The grand total of the summary is the memory of all stored keys: the sum
    of the memory answers of the keys that were observed, of whatever type. *)
Theorem grand_total_is_stored_memory (batches : list (Z * list listed_key)) :
  total_all_mem (type_keys (scan_batches initial batches))
  = sum_mem (omap observation (listed batches)).*2.
Proof.
  assert (∀ s, total_all_mem (type_keys (scan_batches s batches))
               = total_all_mem (type_keys s)
                 + sum_mem (omap observation (listed batches)).*2) as H.
  { induction batches as [|[c keys] batches IH]; intros s.
    - unfold sum_mem. simpl. lia.
    - rewrite scan_batches_cons, listed_cons, IH. unfold scan_batch.
      rewrite foldl_for_body_total_all_mem, omap_app, fmap_app, sum_mem_app.
      simpl. lia. }
  rewrite H. done.
Qed.

(** * The loop and the whole run *)

Lemma while_true_Completed_inv (replies : list scan_reply) (s s' : session)
    (unread : list scan_reply) :
  while_true s replies = Completed s' unread →
  ∃ pre keys, replies = (Returns <$> pre) ++ Returns (0, keys) :: unread
              ∧ Forall (λ b, b.1 ≠ 0) pre
              ∧ s' = scan_batches s (pre ++ [(0, keys)]).
Proof.
  revert s. induction replies as [|[[c keys]|] replies IH]; intros s;
    simpl; [done| |done].
  rewrite scan_batch_cursor. destruct (Z.eqb_spec c 0) as [->|Hc].
  - intros [= <- <-]. by exists [], keys.
  - intros (pre & keys' & -> & Hpre & ->)%IH.
    exists ((c, keys) :: pre), keys'. split; [done|]. split; [|done].
    by constructor.
Qed.

Lemma while_true_Completed_cursor (replies unread : list scan_reply)
    (s s' : session) :
  while_true s replies = Completed s' unread → cursor s' = 0.
Proof.
  intros (pre & keys & _ & _ & ->)%while_true_Completed_inv.
  by rewrite scan_batches_snoc, scan_batch_cursor.
Qed.

(** X17. The loop leaves through [break] only on a reply with cursor 0: a
    completed scan has read replies with other cursors, then one with cursor
    0, and nothing behind it; its session has cursor 0 and is what the loop
    body makes of exactly the batches read. *)
Theorem completed_only_at_zero (replies unread : list scan_reply)
    (s s' : session) :
  while_true s replies = Completed s' unread →
  cursor s' = 0
  ∧ ∃ pre keys, replies = (Returns <$> pre) ++ Returns (0, keys) :: unread
                ∧ Forall (λ b, b.1 ≠ 0) pre
                ∧ s' = scan_batches s (pre ++ [(0, keys)]).
Proof.
  intros H. split.
  - by apply (while_true_Completed_cursor replies unread s).
  - by apply while_true_Completed_inv.
Qed.

Lemma completed_only_at_zero_witness :
  while_true initial [Returns (3, [Sample.k_a]); Returns (0, [Sample.gone]); Raises]
  = Completed (scan_batches initial [(3, [Sample.k_a]); (0, [Sample.gone])]) [Raises]
  ∧ cursor (scan_batches initial [(3, [Sample.k_a]); (0, [Sample.gone])]) = 0.
Proof.
  split; [reflexivity|].
  exact (proj1 (completed_only_at_zero
                  [Returns (3, [Sample.k_a]); Returns (0, [Sample.gone]); Raises]
                  [Raises] initial _ eq_refl)).
Defined.




Example main_of_sample :
  main decimal ["db"%string; "6380"%string]
       [Returns (4, [Sample.k_a; Sample.broken]); Returns (0, [Sample.doc])]
  = ([Connecting "db" 6380; Finished 2 1;
      Ranked (Header "list"); Ranked (Row 1 500 "a"); Ranked (Stats 1 500 500);
      Overall (SummaryRow "ReJSON-RL" 1 64); Overall (SummaryRow "list" 1 500);
      Overall (GrandTotal 2 564)]%string, Exited).
Proof. vm_compute. reflexivity. Qed.

(** X19. What a table shows comes from the server's answers alone: after a scan
    the table of a type is the table of the pairs observed for that type, in
    whatever batches they were listed. *)
Theorem table_shows_observations (batches : list (Z * list listed_key))
    (t : string) :
  table (type_keys (scan_batches initial batches)) t
  = table_of t (observed t (listed batches)).
Proof.
  pose proof (scan_batches_bucket batches initial t) as Hb.
  unfold bucket in Hb. simpl in Hb. rewrite lookup_empty in Hb. simpl in Hb.
  unfold table. rewrite <-Hb.
  by destruct (type_keys (scan_batches initial batches) !! t).
Qed.
